(** * Aviator backend: wallet transaction engine and game history

    A shallow embedding of [backend/src/services/walletService.js] (the
    transaction orchestrator with its Redis lock) and of the in-memory
    [GameRepository].  Asynchronous methods are sequential inside one call,
    so every method is a function in a state-and-exception monad over the
    shared stores; everything an invocation cannot determine by itself (the
    uuid it draws, whether an external call throws) is read from an [Env].
    Where a property is about concurrent callers, what the others do is
    scheduled between the steps of the method (see
    [WalletRepository.Schedule]). *)

From stdpp Require Import gmap strings list fin_maps pretty.

Open Scope string_scope.
Open Scope Z_scope.

(** ** JavaScript values that reach the service as [userId] or [gameId] *)

Inductive value :=
| VUndefined
| VNull
| VBool (b : bool)
| VNum (n : Z)
| VStr (s : string).

(** [!v] is [negb (truthy v)]. *)
Definition truthy (v : value) : bool :=
  match v with
  | VUndefined | VNull => false
  | VBool b => b
  | VNum n => negb (n =? 0)
  | VStr s => negb (String.eqb s "")
  end.

(** [`${v}`] inside a template literal.  A [VNum] stands for an integer
    that JavaScript prints with all its digits (below 10^21 in absolute
    value). *)
Definition template (v : value) : string :=
  match v with
  | VUndefined => "undefined"
  | VNull => "null"
  | VBool true => "true"
  | VBool false => "false"
  | VNum n => pretty n
  | VStr s => s
  end.

(** ** Errors and outcomes *)

Record Error := mkError { message : string }.

Inductive Outcome (A : Type) :=
| Return (a : A)
| Throw (e : Error).
Arguments Return {A} a.
Arguments Throw {A} e.

Definition is_return {A} (o : Outcome A) : bool :=
  match o with Return _ => true | Throw _ => false end.

(** ** Stores *)

(** A Redis string key with its optional expiry in milliseconds. *)
Record RedisEntry := mkEntry { entry_value : string; entry_ttl : option Z }.

(** Amounts and balances are counted in the ledger's smallest unit. *)
Record Transaction := mkTransaction {
  transactionId : string;
  tx_type : string;
  amount : Z;
  balanceAfter : Z;
  tx_description : string
}.

(** A wallet row together with its transaction rows, newest first (the rows
    are linked to the wallet by [walletId]; the link is kept structurally). *)
Record Wallet := mkWallet {
  walletId : string;
  balance : Z;
  currency : string;
  transactions : list Transaction
}.

Inductive Level := info | warn | error.

(** What leaves the service: logger calls and the calls issued to Redis, to
    the wallet repository and to the wallet socket, with their arguments. *)
Inductive Event :=
| Log (lvl : Level) (tag : string) (fields : list (string * value))
| RedisSet (key val : string) (nx : bool) (ttl : option Z)
| RedisEval (key arg : string)
| Call_deposit (userId : value) (walletId : value) (amt : Z)
    (description paymentMethod cur : string)
| Call_recordTransaction (userId : value) (type : string) (amt : Z)
    (balanceAfter : value) (description : string)
| Call_createWallet (userId : value)
| Call_verifyAndSyncBalance (userId : value)
| EmitWalletUpdate (userId : value) (walletId : string) (bal : Z)
    (transactionType : string) (amt : Z) (gameId : value).

(** [trace] lists the events newest first. *)
Record World := mkWorld {
  redis : gmap string RedisEntry;
  ledger : gmap string Wallet;
  trace : list Event
}.

Definition set_redis (f : gmap string RedisEntry → gmap string RedisEntry)
    (w : World) : World :=
  mkWorld (f (redis w)) (ledger w) (trace w).

Definition set_ledger (f : gmap string Wallet → gmap string Wallet)
    (w : World) : World :=
  mkWorld (redis w) (f (ledger w)) (trace w).

Definition emit (ev : Event) (w : World) : World :=
  mkWorld (redis w) (ledger w) (ev :: trace w).

(** ** What one invocation draws from its surroundings

    [Some e] in a fault field means that this external call throws [e]. *)
Record Env := mkEnv {
  uuid : string;                          (* uuidv4() for the lock value *)
  acquire_client_fault : option Error;    (* getClient() in acquireWalletLock *)
  acquire_set_fault : option Error;       (* redisClient.set(.., NX, PX) *)
  ledger_fault : option Error;            (* the repository call *)
  new_walletId : string;                  (* id of a wallet created by the call *)
  new_transactionId : string;             (* id of the row inserted by the call *)
  cache_client_fault : option Error;      (* getClient() before the cache write *)
  cache_set_fault : option Error;         (* redisClient.set(wallet_balance:..) *)
  wallet_socket : option (option Error);  (* getWalletSocket(): None = no socket,
                                             Some f = a socket whose emit throws f *)
  release_client_fault : option Error;    (* getClient() in releaseWalletLock *)
  release_eval_fault : option Error       (* redisClient.eval(unlockScript) *)
}.

(** ** The monad: state [S] and exceptions *)

Definition M (S A : Type) : Type := S → Outcome A * S.

Global Instance M_ret {S} : MRet (M S) := λ A a s, (Return a, s).

Global Instance M_bind {S} : MBind (M S) := λ A B f m s,
  match m s with
  | (Return a, s') => f a s'
  | (Throw e, s') => (Throw e, s')
  end.

Definition throw {S A} (e : Error) : M S A := λ s, (Throw e, s).

Definition modify {S} (f : S → S) : M S unit := λ s, (Return tt, f s).

Definition gets {S A} (f : S → A) : M S A := λ s, (Return (f s), s).

(** [try { body } catch (error) { handler error }] *)
Definition try_catch {S A} (body : M S A) (handler : Error → M S A) : M S A :=
  λ s, match body s with
       | (Return a, s') => (Return a, s')
       | (Throw e, s') => handler e s'
       end.

(** [try { body } catch (error) { handler error } finally { finalizer }]:
    the finalizer runs on both exits, and when it throws, its error is the
    one the caller sees. *)
Definition try_catch_finally {S A} (body : M S A) (handler : Error → M S A)
    (finalizer : M S unit) : M S A :=
  λ s, let '(o, s') := try_catch body handler s in
       match finalizer s' with
       | (Return _, s'') => (o, s'')
       | (Throw e, s'') => (Throw e, s'')
       end.

(** An external call that throws when its fault is set. *)
Definition faulty {S} (fault : option Error) : M S unit :=
  match fault with
  | Some e => throw e
  | None => mret tt
  end.

(** ** Logger and Redis client *)

Definition logger (lvl : Level) (tag : string) (fields : list (string * value))
    : M World unit :=
  modify (emit (Log lvl tag fields)).

(** [redisClient.set(key, val, { NX, PX })]: the reply is [null] (here
    [false]) when NX finds the key present. *)
Definition redis_set (fault : option Error) (key val : string) (nx : bool)
    (ttl : option Z) : M World bool :=
  modify (emit (RedisSet key val nx ttl));;
  faulty fault;;
  held ← gets (λ w, redis w !! key);
  if nx && bool_decide (is_Some held) then mret false
  else modify (set_redis <[key := mkEntry val ttl]>);; mret true.

(** The Lua script of [releaseWalletLock], run atomically by the server:
    [if redis.call('get', KEYS[1]) == ARGV[1] then return
    redis.call('del', KEYS[1]) else return 0 end]. *)
Definition unlockScript (key arg : string) (r : gmap string RedisEntry)
    : Z * gmap string RedisEntry :=
  if decide (entry_value <$> r !! key = Some arg) then (1, delete key r)
  else (0, r).

Definition redis_eval_unlock (fault : option Error) (key arg : string)
    : M World Z :=
  modify (emit (RedisEval key arg));;
  faulty fault;;
  r ← gets redis;
  modify (set_redis (λ _, (unlockScript key arg r).2));;
  mret (unlockScript key arg r).1.

(** ** Distributed lock *)

Definition WALLET_LOCK_DURATION : Z := 10000.

Record Lock := mkLock { lockKey : string; lockValue : string }.

Definition wallet_lock_key (userId : value) : string :=
  "wallet_lock:" +:+ template userId.

Definition wallet_balance_key (userId : value) : string :=
  "wallet_balance:" +:+ template userId.

Definition acquireWalletLock (userId : value) (lockReason : string) (e : Env)
    : M World Lock :=
  let lockKey := wallet_lock_key userId in
  let lockValue := uuid e in
  faulty (acquire_client_fault e);;
  try_catch
    (lockAcquired ← redis_set (acquire_set_fault e) lockKey lockValue true
                      (Some WALLET_LOCK_DURATION);
     (if negb lockAcquired then
        logger warn "WALLET_LOCK_CONTENTION"
          [("userId", userId); ("lockReason", VStr lockReason);
           ("message", VStr "Unable to acquire wallet lock")];;
        throw (mkError "Wallet transaction in progress")
      else mret tt);;
     mret (mkLock lockKey lockValue))
    (λ err,
       logger error "WALLET_LOCK_ACQUISITION_FAILED"
         [("userId", userId); ("lockReason", VStr lockReason);
          ("errorMessage", VStr (message err))];;
       throw err).

Definition releaseWalletLock (lockKey lockValue : string) (e : Env)
    : M World unit :=
  faulty (release_client_fault e);;
  try_catch
    (redis_eval_unlock (release_eval_fault e) lockKey lockValue;;
     logger info "WALLET_LOCK_RELEASED" [("lockKey", VStr lockKey)])
    (λ err,
       logger error "WALLET_LOCK_RELEASE_FAILED"
         [("lockKey", VStr lockKey); ("errorMessage", VStr (message err))];;
       throw err).

(** ** Wallet repository (ledger store) *)

Record LedgerResult := mkResult {
  newBalance : Z;
  res_walletId : string;
  res_transactionId : string
}.

Record BalanceVerification := mkVerification {
  ver_walletId : string;
  currentBalance : Z;
  calculatedBalance : Z;
  corrected : bool;
  difference : Z;
  reason : option string
}.

Definition sum_amounts (txs : list Transaction) : Z :=
  foldr (λ t acc, amount t + acc) 0 txs.

Module WalletRepository.

(** Modelled from the spec: [walletRepository.js] is not under src/.
    Section 4.2, [recordTransaction], first step: locate (or lazily
    create) the wallet.  Wallets are keyed by the textual user id; a wallet
    created here starts at balance 0 with no transaction. *)
Definition located (userId : value) (cur : string) (e : Env)
    (rows : gmap string Wallet) : Wallet :=
  default (mkWallet (new_walletId e) 0 cur []) (rows !! template userId).

(** Modelled from the spec: section 4.2, [recordTransaction], the write:
    [newBalance = currentBalance + amount], a transaction row with
    [balanceAfter = newBalance] is inserted, and the wallet's stored balance
    is updated to match. *)
Definition appended (wal : Wallet) (type : string) (amt : Z)
    (description : string) (e : Env) : Wallet :=
  let newBalance := balance wal + amt in
  mkWallet (walletId wal) newBalance (currency wal)
    (mkTransaction (new_transactionId e) type amt newBalance description
       :: transactions wal).

(** Modelled from the spec: section 4.2, [recordTransaction] as one atomic
    unit; on a storage failure it throws and nothing lands. *)
Definition record (userId : value) (type : string) (amt : Z)
    (description cur : string) (e : Env) : M World LedgerResult :=
  faulty (ledger_fault e);;
  wal ← gets (λ w, located userId cur e (ledger w));
  modify (set_ledger
    <[template userId := appended wal type amt description e]>);;
  mret (mkResult (balance wal + amt) (walletId wal) (new_transactionId e)).

(** Modelled from the spec: the transaction types of section 3 for the
    payment methods the service passes to [deposit]. *)
Definition type_of_payment (paymentMethod : string) : string :=
  if String.eqb paymentMethod "game_bet" then "bet"
  else if String.eqb paymentMethod "game_win" then "win"
  else if String.eqb paymentMethod "game_cashout" then "cashout"
  else "deposit".

(** Modelled from the spec: [WalletRepository.deposit(userId, walletId,
    amount, description, paymentMethod, currency)] is the call through
    which the service reaches [recordTransaction] with a signed amount. *)
Definition deposit (userId walletId : value) (amt : Z)
    (description paymentMethod cur : string) (e : Env)
    : M World LedgerResult :=
  modify (emit (Call_deposit userId walletId amt description paymentMethod
                  cur));;
  record userId (type_of_payment paymentMethod) amt description cur e.

(** Modelled from the spec: [WalletRepository.recordTransaction(userId,
    type, amount, balanceAfter, metadata)], same contract; the balance
    snapshot is computed by the store. *)
Definition recordTransaction (userId : value) (type : string) (amt : Z)
    (balanceAfter : value) (description : string) (e : Env)
    : M World LedgerResult :=
  modify (emit (Call_recordTransaction userId type amt balanceAfter
                  description));;
  record userId type amt description "KSH" e.

(** Modelled from the spec: [createWallet(userId)] of section 4.2 fails
    when the user already has a wallet; otherwise the new wallet starts
    at balance 0 with no transaction. *)
Definition createWallet (userId : value) (e : Env)
    : M World (option Wallet) :=
  modify (emit (Call_createWallet userId));;
  faulty (ledger_fault e);;
  found ← gets (λ w, ledger w !! template userId);
  match found with
  | Some _ => throw (mkError "Wallet already exists")
  | None =>
      let wal := mkWallet (new_walletId e) 0 "KSH" [] in
      modify (set_ledger <[template userId := wal]>);;
      mret (Some wal)
  end.

(** Modelled from the spec: the request handlers run concurrently
    (section 5), so between two steps of a reconciliation the operations of
    other callers can be scheduled.  A [Schedule] gives what these do to
    the stores at each such point: once the reconciliation holds the lock,
    between its summing of the history and its corrective write, and after
    that write. *)
Record Schedule := mkSchedule {
  after_acquire : World → World;
  after_sum : World → World;
  after_correct : World → World
}.

(** No other caller is active. *)
Definition undisturbed : Schedule := mkSchedule id id id.

(** Modelled from the spec: the corrective write of section 4.5 sets the
    stored balance of the wallet row; the history is left as it is. *)
Definition set_balance (calculated : Z) (wal : Wallet) : Wallet :=
  mkWallet (walletId wal) calculated (currency wal) (transactions wal).

(** Modelled from the spec: the reconciliation of section 4.5, step by
    step.  It acquires the same per-user lock as ordinary mutations, sums
    the amounts of the wallet's transactions, and when the sum differs from
    the stored balance it read, it corrects the stored balance; the lock is
    released on every exit.  [others] is what concurrent callers do in
    between. *)
Definition reconcile (others : Schedule) (userId : value) (e : Env)
    : M World BalanceVerification :=
  modify (emit (Call_verifyAndSyncBalance userId));;
  lock ← acquireWalletLock userId "balance_reconciliation" e;
  try_catch_finally
    (modify (after_acquire others);;
     faulty (ledger_fault e);;
     found ← gets (λ w, ledger w !! template userId);
     match found with
     | None => throw (mkError "Wallet not found")
     | Some wal =>
         let calculated := sum_amounts (transactions wal) in
         modify (after_sum others);;
         verification ←
           (if bool_decide (calculated = balance wal) then
              mret (mkVerification (walletId wal) (balance wal) calculated
                      false 0 None)
            else
              modify (set_ledger
                (alter (set_balance calculated) (template userId)));;
              mret (mkVerification (walletId wal) (balance wal) calculated
                      true (calculated - balance wal)
                      (Some "stored balance differed from transaction history")));
         modify (after_correct others);;
         mret verification
     end)
    (λ err, throw err)
    (releaseWalletLock (lockKey lock) (lockValue lock) e).

(** Modelled from the spec: [verifyAndSyncBalance(userId)] is the
    reconciliation as one caller runs it through. *)
Definition verifyAndSyncBalance (userId : value) (e : Env)
    : M World BalanceVerification :=
  reconcile undisturbed userId e.

End WalletRepository.

(** ** Transaction orchestrator *)

(** The local variable [walletLock] of a service method next to the stores. *)
Record Frame := mkFrame { world : World; walletLock : option Lock }.

Definition lift {A} (m : M World A) : M Frame A :=
  λ f, let '(o, w) := m (world f) in (o, mkFrame w (walletLock f)).

Definition assign_walletLock (l : Lock) : M Frame unit :=
  modify (λ f, mkFrame (world f) (Some l)).

(** [let walletLock = null; ...] *)
Definition method {A} (m : M Frame A) : M World A :=
  λ w, let '(o, f) := m (mkFrame w None) in (o, world f).

(** [if (walletLock) { await this.releaseWalletLock(walletLock.lockKey,
    walletLock.lockValue) }] *)
Definition release_if_held (e : Env) : M Frame unit :=
  held ← gets walletLock;
  match held with
  | Some l => lift (releaseWalletLock (lockKey l) (lockValue l) e)
  | None => mret tt
  end.

(** [if (amount <= 0) throw new Error(msg)] *)
Definition require_positive {S} (amt : Z) (msg : string) : M S unit :=
  if amt <=? 0 then throw (mkError msg) else mret tt.

(** The Redis cache write that follows the ledger write. *)
Definition cache_balance (userId : value) (bal : Z) (e : Env) : M World unit :=
  faulty (cache_client_fault e);;
  redis_set (cache_set_fault e) (wallet_balance_key userId) (pretty bal)
    false None;;
  mret tt.

(** [const walletSocket = WalletRepository.getWalletSocket();
    if (walletSocket) { walletSocket.emitWalletUpdate({...}) }] *)
Definition broadcast (userId : value) (r : LedgerResult)
    (transactionType : string) (amt : Z) (gameId : value) (e : Env)
    : M World unit :=
  match wallet_socket e with
  | None => mret tt
  | Some fault =>
      modify (emit (EmitWalletUpdate userId (res_walletId r) (newBalance r)
                      transactionType amt gameId));;
      faulty fault
  end.

Definition deposit (userId : value) (amount : Z)
    (description paymentMethod currency : string) (e : Env)
    : M World LedgerResult :=
  method (try_catch_finally
    (require_positive amount "Deposit amount must be positive";;
     lock ← lift (acquireWalletLock userId "deposit_transaction" e);
     assign_walletLock lock;;
     result ← lift (WalletRepository.deposit userId VNull amount description
                      paymentMethod currency e);
     lift (cache_balance userId (newBalance result) e);;
     lift (logger info "WALLET_DEPOSIT_COMPLETED"
             [("userId", userId); ("amount", VNum amount);
              ("newBalance", VNum (newBalance result));
              ("walletId", VStr (res_walletId result));
              ("paymentMethod", VStr paymentMethod);
              ("currency", VStr currency)]);;
     mret result)
    (λ err,
       lift (logger error "WALLET_DEPOSIT_FAILED"
               [("userId", userId); ("amount", VNum amount);
                ("paymentMethod", VStr paymentMethod);
                ("currency", VStr currency);
                ("errorMessage", VStr (message err))]);;
       throw err)
    (release_if_held e)).

Definition placeBet (userId : value) (betAmount : Z) (gameId : value) (e : Env)
    : M World LedgerResult :=
  method (try_catch_finally
    (require_positive betAmount "Bet amount must be positive";;
     lock ← lift (acquireWalletLock userId "bet_placement_transaction" e);
     assign_walletLock lock;;
     result ← lift (WalletRepository.deposit userId VNull (- betAmount)
                      ("Bet Placement for Game " +:+ template gameId)
                      "game_bet" "KSH" e);
     lift (cache_balance userId (newBalance result) e);;
     lift (broadcast userId result "bet" betAmount gameId e);;
     lift (logger info "WALLET_BET_PLACED"
             [("userId", userId); ("betAmount", VNum betAmount);
              ("gameId", gameId); ("newBalance", VNum (newBalance result));
              ("walletId", VStr (res_walletId result))]);;
     mret result)
    (λ err,
       lift (logger error "WALLET_BET_PLACEMENT_FAILED"
               [("userId", userId); ("betAmount", VNum betAmount);
                ("gameId", gameId); ("errorMessage", VStr (message err))]);;
       throw err)
    (release_if_held e)).

Definition processWinnings (userId : value) (winAmount : Z) (gameId : value)
    (e : Env) : M World LedgerResult :=
  method (try_catch_finally
    (require_positive winAmount "Win amount must be positive";;
     lock ← lift (acquireWalletLock userId "game_winnings_transaction" e);
     assign_walletLock lock;;
     result ← lift (WalletRepository.deposit userId VNull winAmount
                      ("Game Winnings for Game " +:+ template gameId)
                      "game_win" "KSH" e);
     lift (cache_balance userId (newBalance result) e);;
     lift (broadcast userId result "win" winAmount gameId e);;
     lift (logger info "WALLET_WINNINGS_PROCESSED"
             [("userId", userId); ("winAmount", VNum winAmount);
              ("gameId", gameId); ("newBalance", VNum (newBalance result));
              ("walletId", VStr (res_walletId result))]);;
     mret result)
    (λ err,
       lift (logger error "WALLET_WINNINGS_PROCESSING_FAILED"
               [("userId", userId); ("winAmount", VNum winAmount);
                ("gameId", gameId); ("errorMessage", VStr (message err))]);;
       throw err)
    (release_if_held e)).

Definition withdraw (userId : value) (amount : Z) (description : string)
    (e : Env) : M World LedgerResult :=
  method (try_catch_finally
    (require_positive amount "Withdrawal amount must be positive";;
     lock ← lift (acquireWalletLock userId "withdrawal_transaction" e);
     assign_walletLock lock;;
     result ← lift (WalletRepository.recordTransaction userId "withdraw"
                      amount VNull description e);
     lift (cache_balance userId (newBalance result) e);;
     lift (logger info "WALLET_WITHDRAWAL_COMPLETED"
             [("userId", userId); ("amount", VNum amount);
              ("newBalance", VNum (newBalance result))]);;
     mret result)
    (λ err,
       lift (logger error "WALLET_WITHDRAWAL_FAILED"
               [("userId", userId); ("amount", VNum amount);
                ("errorMessage", VStr (message err))]);;
       throw err)
    (release_if_held e)).

Definition cashout (userId : value) (cashoutAmount : Z) (gameId : value)
    (e : Env) : M World LedgerResult :=
  method (try_catch_finally
    (require_positive cashoutAmount "Cashout amount must be positive";;
     lock ← lift (acquireWalletLock userId "cashout_transaction" e);
     assign_walletLock lock;;
     result ← lift (WalletRepository.deposit userId VNull cashoutAmount
                      ("Game Cashout for Game " +:+ template gameId)
                      "game_cashout" "KSH" e);
     lift (cache_balance userId (newBalance result) e);;
     lift (broadcast userId result "cashout" cashoutAmount gameId e);;
     lift (logger info "WALLET_CASHOUT_SUCCESS"
             [("userId", userId); ("cashoutAmount", VNum cashoutAmount);
              ("gameId", gameId); ("newBalance", VNum (newBalance result));
              ("walletId", VStr (res_walletId result))]);;
     mret result)
    (λ err,
       lift (logger error "WALLET_CASHOUT_FAILED"
               [("userId", userId); ("cashoutAmount", VNum cashoutAmount);
                ("gameId", gameId); ("errorMessage", VStr (message err))]);;
       throw err)
    (release_if_held e)).

Definition createWallet (userId : value) (e : Env) : M World Wallet :=
  method (try_catch_finally
    (lock ← lift (acquireWalletLock userId "wallet_creation" e);
     assign_walletLock lock;;
     created ← lift (WalletRepository.createWallet userId e);
     match created with
     | None =>
         lift (logger error "Wallet creation failed"
                 [("userId", userId);
                  ("errorMessage", VStr "Unable to create wallet")]);;
         throw (mkError "Unable to create wallet")
     | Some wallet =>
         lift (cache_balance userId (balance wallet) e);;
         mret wallet
     end)
    (λ err,
       lift (logger error "Wallet creation failed"
               [("userId", userId); ("errorMessage", VStr (message err))]);;
       throw err)
    (release_if_held e)).

Record BalanceResponse := mkResponse {
  resp_userId : value;
  resp_balance : Z;
  resp_currency : string;
  balanceVerified : bool;
  balanceCorrectionReason : option string
}.

(** [getUserProfileBalance]; the timestamps of its log lines, the stack of
    the error and the display string [formattedBalance] are left out. *)
Definition getUserProfileBalance (userId : value) (e : Env)
    : M World BalanceResponse :=
  try_catch
    ((if negb (truthy userId) then
        logger error "INVALID_USER_ID"
          [("message", VStr "User ID is undefined or null");
           ("userId", userId)];;
        throw (mkError "Invalid User ID")
      else mret tt);;
     faulty (cache_client_fault e);;
     logger info "BALANCE_RETRIEVAL_ATTEMPT" [("userId", userId)];;
     balanceVerification ← WalletRepository.verifyAndSyncBalance userId e;
     logger info "BALANCE_VERIFICATION_RESULT"
       [("userId", userId);
        ("walletId", VStr (ver_walletId balanceVerification));
        ("currentBalance", VNum (currentBalance balanceVerification));
        ("calculatedBalance", VNum (calculatedBalance balanceVerification));
        ("corrected", VBool (corrected balanceVerification));
        ("difference", VNum (difference balanceVerification));
        ("reason",
         from_option VStr VUndefined (reason balanceVerification))];;
     let balanceResponse :=
       mkResponse userId (calculatedBalance balanceVerification) "KSH"
         (corrected balanceVerification) (reason balanceVerification) in
     redis_set (cache_set_fault e) (wallet_balance_key userId)
       (pretty (resp_balance balanceResponse)) false None;;
     logger info "BALANCE_RETRIEVAL_SUCCESS"
       [("userId", userId); ("balance", VNum (resp_balance balanceResponse));
        ("corrected", VBool (balanceVerified balanceResponse))];;
     mret balanceResponse)
    (λ err,
       logger error "User profile balance retrieval failed"
         [("userId", userId); ("errorMessage", VStr (message err))];;
       throw err).

(** ** A caller: scripts of mutating operations *)

Inductive Op :=
| Deposit (amount : Z) (description paymentMethod currency : string)
| Withdraw (amount : Z) (description : string)
| PlaceBet (betAmount : Z) (gameId : value)
| ProcessWinnings (winAmount : Z) (gameId : value)
| Cashout (cashoutAmount : Z) (gameId : value).

Definition perform (userId : value) (op : Op) (e : Env)
    : M World LedgerResult :=
  match op with
  | Deposit a d p c => deposit userId a d p c e
  | Withdraw a d => withdraw userId a d e
  | PlaceBet a g => placeBet userId a g e
  | ProcessWinnings a g => processWinnings userId a g e
  | Cashout a g => cashout userId a g e
  end.

(** The amount the caller hands to the operation. *)
Definition input_amount (op : Op) : Z :=
  match op with
  | Deposit a _ _ _ | Withdraw a _ | PlaceBet a _ | ProcessWinnings a _
  | Cashout a _ => a
  end.

(** The amount argument of the repository call each method issues. *)
Definition passed_amount (op : Op) : Z :=
  match op with
  | Deposit a _ _ _ => a
  | Withdraw a _ => a
  | PlaceBet a _ => - a
  | ProcessWinnings a _ => a
  | Cashout a _ => a
  end.

(** The repository call each method issues, as it shows in the trace. *)
Definition ledger_call (userId : value) (op : Op) : Event :=
  match op with
  | Deposit a d p c => Call_deposit userId VNull a d p c
  | Withdraw a d => Call_recordTransaction userId "withdraw" a VNull d
  | PlaceBet a g =>
      Call_deposit userId VNull (- a)
        ("Bet Placement for Game " +:+ template g) "game_bet" "KSH"
  | ProcessWinnings a g =>
      Call_deposit userId VNull a
        ("Game Winnings for Game " +:+ template g) "game_win" "KSH"
  | Cashout a g =>
      Call_deposit userId VNull a
        ("Game Cashout for Game " +:+ template g) "game_cashout" "KSH"
  end.

(** The purpose label each method gives to [acquireWalletLock]. *)
Definition purpose (op : Op) : string :=
  match op with
  | Deposit _ _ _ _ => "deposit_transaction"
  | Withdraw _ _ => "withdrawal_transaction"
  | PlaceBet _ _ => "bet_placement_transaction"
  | ProcessWinnings _ _ => "game_winnings_transaction"
  | Cashout _ _ => "cashout_transaction"
  end.

(** The message of each method's validation error. *)
Definition validation_message (op : Op) : string :=
  match op with
  | Deposit _ _ _ _ => "Deposit amount must be positive"
  | Withdraw _ _ => "Withdrawal amount must be positive"
  | PlaceBet _ _ => "Bet amount must be positive"
  | ProcessWinnings _ _ => "Win amount must be positive"
  | Cashout _ _ => "Cashout amount must be positive"
  end.

(** The tag under which each method's catch block logs. *)
Definition failure_tag (op : Op) : string :=
  match op with
  | Deposit _ _ _ _ => "WALLET_DEPOSIT_FAILED"
  | Withdraw _ _ => "WALLET_WITHDRAWAL_FAILED"
  | PlaceBet _ _ => "WALLET_BET_PLACEMENT_FAILED"
  | ProcessWinnings _ _ => "WALLET_WINNINGS_PROCESSING_FAILED"
  | Cashout _ _ => "WALLET_CASHOUT_FAILED"
  end.

(** The first fault met by the cache write that follows the ledger write. *)
Definition cache_fault (e : Env) : option Error :=
  match cache_client_fault e with
  | Some err => Some err
  | None => cache_set_fault e
  end.

(** The fault of the socket broadcast, for the methods that broadcast. *)
Definition socket_fault (op : Op) (e : Env) : option Error :=
  match op with
  | Deposit _ _ _ _ | Withdraw _ _ => None
  | _ => match wallet_socket e with Some fault => fault | None => None end
  end.

(** The first fault met by [releaseWalletLock]. *)
Definition release_fault (e : Env) : option Error :=
  match release_client_fault e with
  | Some err => Some err
  | None => release_eval_fault e
  end.

(** The newest trace entry is the error-level log line [tag] carrying the
    message of [err]. *)
Definition logged (tag : string) (err : Error) (w : World) : Prop :=
  ∃ fields, head (trace w) = Some (Log error tag fields) ∧
            ("errorMessage", VStr (message err)) ∈ fields.

Record Call := mkCall { call_user : value; call_op : Op; call_env : Env }.

Fixpoint run_script (script : list Call) (w : World)
    : list (Outcome LedgerResult) * World :=
  match script with
  | [] => ([], w)
  | c :: rest =>
      let '(o, w1) := perform (call_user c) (call_op c) (call_env c) w in
      let '(os, w2) := run_script rest w1 in
      (o :: os, w2)
  end.

(** ** Game history (GameRepository) *)

Module GameRepository.

(** A player of a finished round; [other] stands for the properties that
    [saveGameResult] does not copy. *)
Record Player := mkPlayer {
  playerId : value;
  betAmount : Z;
  status : string;
  other : list (string * value)
}.

(** [crashPoint] has two decimals and is kept in hundredths. *)
Record GameResult := mkGameResult {
  gameId : value;
  crashPoint : Z;
  players : list Player
}.

Record StoredPlayer := mkStoredPlayer {
  sp_playerId : value;
  sp_betAmount : Z;
  sp_status : string
}.

Record Stored := mkStored {
  st_gameId : value;
  st_crashPoint : Z;
  timestamp : Z;
  st_players : list StoredPlayer
}.

(** The object literal that [saveGameResult] puts in front of the
    history; [now] is [new Date()]. *)
Definition stored_of (gameResult : GameResult) (now : Z) : Stored :=
  mkStored (gameId gameResult) (crashPoint gameResult) now
    (map (λ player, mkStoredPlayer (playerId player) (betAmount player)
                      (status player))
       (players gameResult)).

(** [this.gameHistory = []] *)
Definition constructor : list Stored := [].

Definition saveGameResult (gameResult : GameResult) (now : Z)
    (gameHistory : list Stored) : GameResult * list Stored :=
  let unshifted := stored_of gameResult now :: gameHistory in
  let limited :=
    if (100 <? length unshifted)%nat then removelast unshifted
    else unshifted in
  (gameResult, limited).

(** [Array.prototype.slice(0, end)] *)
Definition slice_to {A} (final : Z) (l : list A) : list A :=
  let len := Z.of_nat (length l) in
  let k := if final <? 0 then Z.max (len + final) 0 else Z.min final len in
  take (Z.to_nat k) l.

(** [limit = 10] when the argument is left out. *)
Definition getGameHistory (limit : option Z) (gameHistory : list Stored)
    : list Stored :=
  slice_to (default 10 limit) gameHistory.

(** [this.gameHistory[0] || null]: a stored object is never falsy. *)
Definition getLastGameResult (gameHistory : list Stored) : option Stored :=
  head gameHistory.

(** Saving the results of a list of rounds, oldest first. *)
Definition save_all (rounds : list (GameResult * Z))
    (gameHistory : list Stored) : list Stored :=
  foldl (λ h r, (saveGameResult r.1 r.2 h).2) gameHistory rounds.

End GameRepository.

(** ** Notions used by the statements *)

(** [m], started in [w], ends with [releaseWalletLock] on the lock [l] that
    was acquired in [w1]: the steps after the acquisition lead to a world
    [wm] in which the lock is still stored, with an outcome [o1] (a result
    or an error); the release runs from [wm], and what the caller sees is
    decided after it. *)
Definition released_last {A} (m : M World A) (e : Env) (l : Lock)
    (w1 w : World) : Prop :=
  ∃ (o1 : Outcome A) (wm : World) (o_rel : Outcome unit) (w' : World),
    releaseWalletLock (lockKey l) (lockValue l) e wm = (o_rel, w') ∧
    m w = (match o_rel with Return _ => o1 | Throw err => Throw err end, w') ∧
    trace w1 `suffix_of` trace wm ∧
    redis wm !! lockKey l =
      Some (mkEntry (lockValue l) (Some WALLET_LOCK_DURATION)) ∧
    (release_client_fault e = None →
     ∃ lvl tag fields,
       trace w' = Log lvl tag fields
                    :: RedisEval (lockKey l) (lockValue l) :: trace wm) ∧
    (release_fault e = None → redis w' !! lockKey l = None).

(** The ledger invariant of one wallet: the stored balance is the sum of the
    recorded amounts, and the newest row's snapshot is the stored balance. *)
Definition consistent (wal : Wallet) : Prop :=
  balance wal = sum_amounts (transactions wal) ∧
  ∀ t, head (transactions wal) = Some t → balanceAfter t = balance wal.

(** The operations of a script that address the wallet of [userId]. *)
Definition calls_on (userId : value) (script : list Call) : list Op :=
  call_op <$> filter (λ c, template (call_user c) = template userId) script.

(** The signed ledger amount of each operation in the words of section 4.4
    of the specification: bet negative, deposit, win and cashout positive,
    withdraw negative. *)
Definition claimed_amount (op : Op) : Z :=
  match op with
  | Deposit a _ _ _ => a
  | Withdraw a _ => - a
  | PlaceBet a _ => - a
  | ProcessWinnings a _ => a
  | Cashout a _ => a
  end.

(** The amount argument of a repository call in the trace. *)
Definition call_amount (ev : Event) : option Z :=
  match ev with
  | Call_deposit _ _ amt _ _ _ => Some amt
  | Call_recordTransaction _ _ amt _ _ => Some amt
  | _ => None
  end.

(** The repository calls of a trace, newest first. *)
Definition repository_calls (t : list Event) : list Event :=
  List.filter (λ ev, bool_decide (is_Some (call_amount ev))) t.

(** The statement that a failed cache write does not fail the operation:
    the lock was acquired, the ledger write succeeds, the cache write
    throws, and the caller still gets the result. *)
Definition cache_failure_swallowed : Prop :=
  ∀ u op e w l w1 err,
    0 < input_amount op →
    acquireWalletLock u (purpose op) e w = (Return l, w1) →
    ledger_fault e = None →
    cache_fault e = Some err →
    ∃ r w', perform u op e w = (Return r, w').

(** An invocation in which no external call fails and no socket is set. *)
Definition quiet (token wid tid : string) : Env :=
  mkEnv token None None None wid tid None None None None None.

Definition empty_world : World := mkWorld ∅ ∅ [].

(** An invocation whose cache write throws after the ledger write. *)
Definition cache_down (token wid tid : string) : Env :=
  mkEnv token None None None wid tid None
    (Some (mkError "redis unavailable")) None None None.

(** The world in which [u1] has a newly created wallet. *)
Definition created_u1 : World :=
  mkWorld ∅ {["u1" := mkWallet "w1" 0 "KSH" []]} [].

(** Section 8 of the specification: deposit 1000, bet 200, win 500,
    cash out 1300. *)
Definition scenario : list Call :=
  [mkCall (VStr "u1") (Deposit 1000 "Manual Deposit" "manual" "KSH")
     (quiet "t1" "w1" "x1");
   mkCall (VStr "u1") (PlaceBet 200 (VStr "g1")) (quiet "t2" "w1" "x2");
   mkCall (VStr "u1") (ProcessWinnings 500 (VStr "g1")) (quiet "t3" "w1" "x3");
   mkCall (VStr "u1") (Cashout 1300 (VStr "g1")) (quiet "t4" "w1" "x4")].

(** [u1] owns a wallet holding one deposit of 500. *)
Definition funded_u1 : World :=
  mkWorld ∅
    {["u1" := mkWallet "w1" 500 "KSH"
                [mkTransaction "x0" "deposit" 500 500 "Manual Deposit"]]} [].

(** [u1]'s stored balance (700) has drifted from its history (500). *)
Definition drifted_u1 : World :=
  mkWorld ∅
    {["u1" := mkWallet "w1" 700 "KSH"
                [mkTransaction "x0" "deposit" 500 500 "Manual Deposit"]]} [].

(** Holder A owns the lock of [u1] with token [token-A]. *)
Definition held_by_A : World :=
  mkWorld {["wallet_lock:u1" :=
              mkEntry "token-A" (Some WALLET_LOCK_DURATION)]} ∅ [].

(** The world right after user [u1] took the lock with token [t1]. *)
Definition locked_u1 : World :=
  mkWorld {["wallet_lock:u1" := mkEntry "t1" (Some WALLET_LOCK_DURATION)]} ∅
    [RedisSet "wallet_lock:u1" "t1" true (Some WALLET_LOCK_DURATION)].

(** What a script of mutating operations, run by other callers, leaves in
    the stores. *)
Definition after_script (script : list Call) (w : World) : World :=
  (run_script script w).2.

(** The operations of other callers scheduled inside a reconciliation:
    [s1] once it holds the lock, [s2] between its summing of the history
    and its corrective write, [s3] after that write. *)
Definition concurrent (s1 s2 s3 : list Call) : WalletRepository.Schedule :=
  WalletRepository.mkSchedule (after_script s1) (after_script s2)
    (after_script s3).


(** Another caller deposits 1000 for [u1]. *)
Definition rival_deposit : list Call :=
  [mkCall (VStr "u1") (Deposit 1000 "Manual Deposit" "manual" "KSH")
     (quiet "t2" "w1" "x2")].

(** ** Further notions: what a trace shows *)

(** The wallet updates sent to the socket, newest first. *)
Definition emitted (t : list Event) : list Event :=
  List.filter
    (λ ev, match ev with
           | EmitWalletUpdate _ _ _ _ _ _ => true
           | _ => false
           end) t.

(** The unlock scripts sent to Redis, newest first. *)
Definition unlock_calls (t : list Event) : list Event :=
  List.filter
    (λ ev, match ev with RedisEval _ _ => true | _ => false end) t.

(** The wallet update that [placeBet], [processWinnings] and [cashout] hand
    to [walletSocket.emitWalletUpdate] for the result [r]; [deposit] and
    [withdraw] have no such call. *)
Definition broadcast_of (userId : value) (op : Op) (r : LedgerResult)
    : option Event :=
  match op with
  | Deposit _ _ _ _ | Withdraw _ _ => None
  | PlaceBet a g =>
      Some (EmitWalletUpdate userId (res_walletId r) (newBalance r) "bet" a g)
  | ProcessWinnings a g =>
      Some (EmitWalletUpdate userId (res_walletId r) (newBalance r) "win" a g)
  | Cashout a g =>
      Some (EmitWalletUpdate userId (res_walletId r) (newBalance r)
              "cashout" a g)
  end.

(** The result a mutating operation returns when the wallet row found
    before the call is [prior]. *)
Definition expected_result (op : Op) (e : Env) (prior : option Wallet)
    : LedgerResult :=
  mkResult (from_option balance 0 prior + passed_amount op)
    (from_option walletId (new_walletId e) prior) (new_transactionId e).

(** ** Further notions: game history *)

From stdpp Require Import sorting.

Open Scope string_scope.
Open Scope Z_scope.

(** The clock readings stored with a history, newest entry first. *)
Definition timestamps (gameHistory : list GameRepository.Stored) : list Z :=
  GameRepository.timestamp <$> gameHistory.

(** ** depositFunds and withdrawFunds *)

(** A call into the wallet repository as these two methods see it: it acts
    on the ledger store and returns a result or throws.  What
    [WalletRepository.deposit] does with four arguments and what
    [WalletRepository.withdraw] does is not in the sources, so both methods
    take the repository call as an argument. *)
Definition RepositoryCall : Type :=
  gmap string Wallet → Outcome LedgerResult * gmap string Wallet.

Definition call_repository (c : RepositoryCall) : M World LedgerResult :=
  λ w, let '(o, rows) := c (ledger w) in (o, set_ledger (λ _, rows) w).

(** The faults of the two Redis calls that only [depositFunds] makes, next
    to the invocation's [Env]. *)
Record FundsEnv := mkFundsEnv {
  base : Env;
  id_get_fault : option Error;   (* redisClient.get(wallet_id:..) *)
  id_set_fault : option Error    (* redisClient.set(wallet_id:..) *)
}.

Definition wallet_id_key (userId : value) : string :=
  "wallet_id:" +:+ template userId.

(** [24 * 60 * 60], in seconds. *)
Definition CACHE_EXPIRATION : Z := 24 * 60 * 60.

(** [{ EX: seconds }] as the expiry kept with an entry. *)
Definition EX (seconds : Z) : option Z := Some (seconds * 1000).

(** [redisClient.get(key)]: the stored string or [null].  Reads leave no
    entry in the trace. *)
Definition redis_get (fault : option Error) (key : string)
    : M World (option string) :=
  faulty fault;;
  gets (λ w, entry_value <$> redis w !! key).

(** Truthiness of what [get] replied: [null] and the empty string are
    falsy. *)
Definition replied (reply : option string) : bool :=
  match reply with
  | Some s => negb (String.eqb s "")
  | None => false
  end.

(** [walletId || undefined] *)
Definition or_undefined (reply : option string) : value :=
  match reply with
  | Some s => if String.eqb s "" then VUndefined else VStr s
  | None => VUndefined
  end.

Definition depositFunds
    (repository_deposit : value → value → Z → string → RepositoryCall)
    (userId : value) (amount : Z) (description : string) (fe : FundsEnv)
    : M World LedgerResult :=
  method (try_catch_finally
    (require_positive amount "Deposit amount must be positive";;
     lock ← lift (acquireWalletLock userId "deposit_transaction" (base fe));
     assign_walletLock lock;;
     lift (faulty (cache_client_fault (base fe)));;
     let redisCacheKey := wallet_id_key userId in
     let balanceCacheKey := wallet_balance_key userId in
     walletId ← lift (redis_get (id_get_fault fe) redisCacheKey);
     result ← lift (call_repository
                      (repository_deposit userId (or_undefined walletId)
                         amount description));
     lift (redis_set (cache_set_fault (base fe)) balanceCacheKey
             (pretty (newBalance result)) false (EX CACHE_EXPIRATION));;
     (if negb (replied walletId) then
        lift (redis_set (id_set_fault fe) redisCacheKey
                (res_walletId result) false (EX CACHE_EXPIRATION));;
        mret tt
      else mret tt);;
     mret result)
    (λ err,
       lift (logger error "Funds deposit failed"
               [("userId", userId); ("amount", VNum amount);
                ("errorMessage", VStr (message err))]);;
       throw err)
    (release_if_held (base fe))).

Definition withdrawFunds
    (repository_withdraw : value → Z → string → RepositoryCall)
    (userId : value) (amount : Z) (description : string) (e : Env)
    : M World LedgerResult :=
  method (try_catch_finally
    (require_positive amount "Withdrawal amount must be positive";;
     lock ← lift (acquireWalletLock userId "withdrawal_transaction" e);
     assign_walletLock lock;;
     result ← lift (call_repository
                      (repository_withdraw userId amount description));
     lift (faulty (cache_client_fault e));;
     let balanceCacheKey := wallet_balance_key userId in
     lift (redis_set (cache_set_fault e) balanceCacheKey
             (pretty (newBalance result)) false (EX CACHE_EXPIRATION));;
     mret result)
    (λ err,
       lift (logger error "Funds withdrawal failed"
               [("userId", userId); ("amount", VNum amount);
                ("errorMessage", VStr (message err))]);;
       throw err)
    (release_if_held e)).

(** A repository for the examples: it books the amount on the user's
    wallet, creating the wallet when there is none. *)
Definition booking (sign : Z) (userId : value) (amt : Z)
    (description : string) : RepositoryCall :=
  λ rows,
    let wal := default (mkWallet "w1" 0 "KSH" []) (rows !! template userId) in
    let newBalance := balance wal + sign * amt in
    (Return (mkResult newBalance (walletId wal) "x1"),
     <[template userId :=
         mkWallet (walletId wal) newBalance (currency wal)
           (mkTransaction "x1" "funds" (sign * amt) newBalance description
              :: transactions wal)]> rows).

Definition sample_deposit (userId walletId : value) (amt : Z)
    (description : string) : RepositoryCall :=
  booking 1 userId amt description.

Definition sample_withdraw (userId : value) (amt : Z) (description : string)
    : RepositoryCall :=
  booking (-1) userId amt description.

(** ** Redis cleanup *)

(** The two commands of the Redis client that only the cleanup uses:
    [keys(pattern)], the keys of the store that match a glob pattern, and
    [del(...keys)].  Pattern matching and the client's handling of [del]
    belong to Redis and its client library; the cleanup is modelled for
    every pair of commands of which [del] only removes entries.  Neither
    command leaves an entry in the trace. *)
Record KeyCommands := mkKeyCommands {
  keys_of : string → gmap string RedisEntry → list string;
  del_of : list string → gmap string RedisEntry → gmap string RedisEntry;
  del_of_removes : ∀ ks r, del_of ks r ⊆ r
}.

(** The faults of the cleanup's external calls; [keys_fault i] and
    [del_fault i] belong to the [i]-th pattern. *)
Record CleanupEnv := mkCleanupEnv {
  cleanup_client_fault : option Error;   (* getClient() in clearOutdated.. *)
  keys_fault : nat → option Error;
  del_fault : nat → option Error;
  schedule_client_fault : option Error;  (* getClient() in scheduleRedis.. *)
  marker_get_fault : option Error;
  marker_set_fault : option Error
}.

Definition keyPatterns (userId : value) : list string :=
  ["wallet_balance:" +:+ template userId;
   "wallet_id:" +:+ template userId;
   "transaction_history:" +:+ template userId +:+ ":*";
   "user_token:" +:+ template userId;
   "bet_history:" +:+ template userId +:+ ":*"].

(** [for (const pattern of keyPatterns) { ... }], from the [i]-th pattern. *)
Fixpoint clear_patterns (c : KeyCommands) (ce : CleanupEnv) (userId : value)
    (i : nat) (patterns : list string) : M World unit :=
  match patterns with
  | [] => mret tt
  | pattern :: rest =>
      faulty (keys_fault ce i);;
      keys ← gets (λ w, keys_of c pattern (redis w));
      (if (0 <? length keys)%nat then
         faulty (del_fault ce i);;
         modify (set_redis (del_of c keys));;
         logger info "REDIS_KEYS_CLEARED"
           [("userId", userId); ("pattern", VStr pattern);
            ("clearedKeysCount", VNum (Z.of_nat (length keys)))]
       else mret tt);;
      clear_patterns c ce userId (S i) rest
  end.

Definition clearOutdatedRedisEntries (c : KeyCommands) (ce : CleanupEnv)
    (userId : value) : M World unit :=
  try_catch
    (faulty (cleanup_client_fault ce);;
     clear_patterns c ce userId 0 (keyPatterns userId))
    (λ err,
       logger error "REDIS_CLEANUP_FAILED"
         [("userId", userId); ("errorMessage", VStr (message err))]).

Definition redis_cleanup_key (userId : value) : string :=
  "redis_cleanup:" +:+ template userId.

(** [intervalMinutes = 60] when the argument is left out. *)
Definition scheduleRedisCleanup (c : KeyCommands) (ce : CleanupEnv)
    (userId : value) (intervalMinutes : option Z) : M World unit :=
  try_catch
    (faulty (schedule_client_fault ce);;
     let cleanupKey := redis_cleanup_key userId in
     existingCleanup ← redis_get (marker_get_fault ce) cleanupKey;
     if replied existingCleanup then mret tt
     else
       redis_set (marker_set_fault ce) cleanupKey "scheduled" true
         (EX (default 60 intervalMinutes * 60));;
       clearOutdatedRedisEntries c ce userId)
    (λ err,
       logger error "REDIS_CLEANUP_SCHEDULING_FAILED"
         [("userId", userId); ("errorMessage", VStr (message err))]).

Definition manualRedisCleanup (c : KeyCommands) (ce : CleanupEnv)
    (userId : value) : M World bool :=
  try_catch
    (clearOutdatedRedisEntries c ce userId;;
     logger info "MANUAL_REDIS_CLEANUP_COMPLETED" [("userId", userId)];;
     mret true)
    (λ err,
       logger error "MANUAL_REDIS_CLEANUP_FAILED"
         [("userId", userId); ("errorMessage", VStr (message err))];;
       mret false).

(** An invocation of the cleanup in which Redis always answers. *)
Definition calm : CleanupEnv :=
  mkCleanupEnv None (λ _, None) (λ _, None) None None None.

(** An invocation of the cleanup in which nothing of Redis answers. *)
Definition redis_gone : CleanupEnv :=
  mkCleanupEnv (Some (mkError "redis unavailable"))
    (λ _, Some (mkError "redis unavailable"))
    (λ _, Some (mkError "redis unavailable"))
    (Some (mkError "redis unavailable")) (Some (mkError "redis unavailable"))
    (Some (mkError "redis unavailable")).

(** Commands for the examples: a pattern matches the key equal to it. *)
Definition literal_commands : KeyCommands :=
  mkKeyCommands
    (λ pattern r, if bool_decide (is_Some (r !! pattern)) then [pattern]
                  else [])
    (λ ks r, foldr delete r ks)
    (λ ks r, list_ind (λ ks, foldr delete r ks ⊆ r)
               (reflexivity r)
               (λ k ks IH, transitivity (delete_subseteq (foldr delete r ks) k)
                             IH)
               ks).

(** [u1] has a cached balance, a cached wallet id and a cleanup marker. *)
Definition cached_u1 : World :=
  mkWorld {["wallet_balance:u1" := mkEntry "500" None;
            "wallet_id:u1" := mkEntry "w1" None;
            "redis_cleanup:u1" := mkEntry "scheduled" (Some 3600000)]} ∅ [].

(** ** formatCurrency *)

From Stdlib Require Import Ascii.

(** [\d] *)
Definition is_digit (c : Ascii.ascii) : bool :=
  (48 <=? Ascii.nat_of_ascii c)%nat && (Ascii.nat_of_ascii c <=? 57)%nat.

(** [\w]: a letter, a digit or the underscore. *)
Definition is_word_char (c : Ascii.ascii) : bool :=
  is_digit c
  || (65 <=? Ascii.nat_of_ascii c)%nat && (Ascii.nat_of_ascii c <=? 90)%nat
  || (97 <=? Ascii.nat_of_ascii c)%nat && (Ascii.nat_of_ascii c <=? 122)%nat
  || (Ascii.nat_of_ascii c =? 95)%nat.

(** The number of digits at the front of [s]. *)
Fixpoint digit_run (s : list Ascii.ascii) : nat :=
  match s with
  | c :: rest => if is_digit c then S (digit_run rest) else 0%nat
  | [] => 0%nat
  end.

(** The lookahead [(?=(\d{3})+(?!\d))]: what follows starts with one or
    more groups of three digits that no further digit follows. *)
Definition lookahead (s : list Ascii.ascii) : bool :=
  (0 <? digit_run s)%nat && (digit_run s mod 3 =? 0)%nat.

(** [s.replace(/\B(?=(\d{3})+(?!\d))/g, ',')] from a position of [s]
    whose left neighbour is a word character or not ([prev_word]; there is
    no left neighbour at the start, which counts as not a word
    character).  [\B] holds where both neighbours are word characters or
    neither is. *)
Fixpoint insert_commas (prev_word : bool) (s : list Ascii.ascii) : list Ascii.ascii :=
  match s with
  | [] => []
  | c :: rest =>
      let tail := c :: insert_commas (is_word_char c) rest in
      if Bool.eqb prev_word (is_word_char c) && lookahead s
      then ","%char :: tail else tail
  end.

(** [s.split(sep)] for a one-character separator. *)
Fixpoint split_on (sep : Ascii.ascii) (s : list Ascii.ascii) : list (list Ascii.ascii) :=
  match s with
  | [] => [[]]
  | c :: rest =>
      if Ascii.eqb c sep then [] :: split_on sep rest
      else match split_on sep rest with
           | part :: parts => (c :: part) :: parts
           | [] => [[c]]
           end
  end.

(** [formatCurrency(number, currency)].  [None] is [null] or [undefined];
    [toFixed2 x] is [Number(x).toFixed(2)], the rendering of a floating
    point number by the language, which is taken as given. *)
Definition formatCurrency {number : Type} (toFixed2 : number → string)
    (n : option number) (currency : string) : string :=
  match n with
  | None => ""
  | Some x =>
      let formattedNumber := toFixed2 x in
      let parts := split_on "."%char (String.list_ascii_of_string formattedNumber) in
      let integerPart := default [] (parts !! 0%nat) in
      let decimalPart :=
        match parts !! 1%nat with
        | Some d => String.string_of_list_ascii d
        | None => "undefined"
        end in
      let formattedInteger := insert_commas false integerPart in
      currency +:+ String.string_of_list_ascii formattedInteger +:+ "." +:+
        decimalPart
  end.

(** [k] groups of three characters of [b], each after a comma. *)
Fixpoint with_commas (k : nat) (b : list Ascii.ascii) : list Ascii.ascii :=
  match k with
  | O => []
  | S k' => ","%char :: take 3 b ++ with_commas k' (drop 3 b)
  end.

(** Numbers for the examples, with the way [toFixed(2)] prints them:
    whole numbers, and the two values that print without a decimal point. *)
Inductive sample_number := Whole (n : Z) | NotANumber | Infinite.

Definition sample_toFixed2 (x : sample_number) : string :=
  match x with
  | Whole n => pretty n +:+ ".00"
  | NotANumber => "NaN"
  | Infinite => "Infinity"
  end.

(** [s] without its commas. *)
Definition without_commas (s : list Ascii.ascii) : list Ascii.ascii :=
  List.filter (λ c, negb (Ascii.eqb c ","%char)) s.

(** ** getTransactionHistory *)

Definition transaction_history_key (userId : value) (limit offset : Z)
    : string :=
  "transaction_history:" +:+ template userId +:+ ":" +:+ pretty limit
    +:+ ":" +:+ pretty offset.

(** [getTransactionHistory(userId, limit = 50, offset = 0)].  The
    repository's query and [JSON.stringify] are not in the sources; the
    method takes both as arguments, for any type [T] of transaction rows. *)
Definition getTransactionHistory {T : Type}
    (repository_history :
       value → Z → Z → gmap string Wallet →
       Outcome (list T) * gmap string Wallet)
    (stringify : list T → string)
    (userId : value) (limit offset : option Z) (e : Env)
    : M World (list T) :=
  let limit := default 50 limit in
  let offset := default 0 offset in
  try_catch
    (transactions ←
       (λ w, let '(o, rows) := repository_history userId limit offset
                                 (ledger w) in
             (o, set_ledger (λ _, rows) w));
     faulty (cache_client_fault e);;
     let redisCacheKey := transaction_history_key userId limit offset in
     redis_set (cache_set_fault e) redisCacheKey (stringify transactions)
       false (EX 3600);;
     mret transactions)
    (λ err,
       logger error "TRANSACTION_HISTORY_RETRIEVAL_FAILED"
         [("userId", userId); ("limit", VNum limit); ("offset", VNum offset);
          ("errorMessage", VStr (message err))];;
       throw err).

(** A query for the examples: the amounts of the user's transactions,
    newest first, from [offset], at most [limit] of them. *)
Definition sample_history (userId : value) (limit offset : Z)
    (rows : gmap string Wallet) : Outcome (list Z) * gmap string Wallet :=
  (Return
     (take (Z.to_nat limit)
        (drop (Z.to_nat offset)
           (amount <$>
              from_option transactions [] (rows !! template userId)))),
   rows).

(** A rendering for the examples. *)
Definition sample_stringify (amounts : list Z) : string :=
  "[" +:+ String.concat "," (pretty <$> amounts) +:+ "]".

Arguments wallet_lock_key : simpl never.
Arguments wallet_balance_key : simpl never.

(** * Proofs *)

(** ** Symbolic execution of the monad *)

Ltac unfold_monad :=
  unfold method, try_catch_finally, try_catch, release_if_held,
    assign_walletLock, lift, cache_balance, broadcast, require_positive,
    logger, redis_set, redis_eval_unlock, faulty, throw, modify, gets,
    mbind, M_bind, mret, M_ret in *.

Ltac solve_post :=
  first [ by exists [] | by eexists [_] | by eexists [_; _]
        | by eexists [_; _; _] | by eexists [_; _; _; _]
        | by eexists [_; _; _; _; _] | by eexists [_; _; _; _; _; _] ].

Ltac split_faults e :=
  destruct (ledger_fault e) as [?|];
    [|destruct (cache_client_fault e) as [?|];
        [|destruct (cache_set_fault e) as [?|];
            [|destruct (wallet_socket e) as [[?|]|]]]];
  simpl.

(** A method body under [finally { if (walletLock) release }]: the release
    runs from whatever frame the try and catch blocks left. *)
Lemma finally_spec {A} (body : M Frame A) handler e w :
  method (try_catch_finally body handler (release_if_held e)) w =
    let '(o1, f1) := try_catch body handler (mkFrame w None) in
    match walletLock f1 with
    | None => (o1, world f1)
    | Some l =>
        let '(o_rel, w') :=
          releaseWalletLock (lockKey l) (lockValue l) e (world f1) in
        (match o_rel with Return _ => o1 | Throw e' => Throw e' end, w')
    end.
Proof.
  unfold method, try_catch_finally, release_if_held, lift, gets, mbind,
    M_bind, mret, M_ret.
  destruct (try_catch body handler _) as [o1 [w1 [l|]]]; simpl; [|reflexivity].
  destruct (releaseWalletLock _ _ _ _) as [[[]|e'] w']; reflexivity.
Qed.

(** Acquisition returns only when Redis answered and the key was absent. *)
Lemma acquire_return userId p e w l w1 :
  acquireWalletLock userId p e w = (Return l, w1) →
  acquire_client_fault e = None ∧ acquire_set_fault e = None ∧
  redis w !! wallet_lock_key userId = None ∧
  l = mkLock (wallet_lock_key userId) (uuid e) ∧
  w1 = set_redis <[wallet_lock_key userId :=
                     mkEntry (uuid e) (Some WALLET_LOCK_DURATION)]>
         (emit (RedisSet (wallet_lock_key userId) (uuid e) true
                  (Some WALLET_LOCK_DURATION)) w).
Proof.
  unfold acquireWalletLock. unfold_monad.
  destruct (acquire_client_fault e); simpl; [discriminate|].
  destruct (acquire_set_fault e); simpl; [discriminate|].
  destruct (redis w !! wallet_lock_key userId) eqn:Hk; simpl.
  - discriminate.
  - intros [= <- <-]. done.
Qed.

(** With Redis answering and the key absent, acquisition stores the token. *)
Lemma acquire_free userId p e w :
  acquire_client_fault e = None → acquire_set_fault e = None →
  redis w !! wallet_lock_key userId = None →
  acquireWalletLock userId p e w =
    (Return (mkLock (wallet_lock_key userId) (uuid e)),
     set_redis <[wallet_lock_key userId :=
                   mkEntry (uuid e) (Some WALLET_LOCK_DURATION)]>
       (emit (RedisSet (wallet_lock_key userId) (uuid e) true
                (Some WALLET_LOCK_DURATION)) w)).
Proof.
  intros Hc Hs Hk. unfold acquireWalletLock. unfold_monad.
  rewrite Hc, Hs. simpl. rewrite Hk. reflexivity.
Qed.

(** A failed acquisition changes neither store. *)
Lemma acquire_throw userId p e w err w1 :
  acquireWalletLock userId p e w = (Throw err, w1) →
  redis w1 = redis w ∧ ledger w1 = ledger w ∧
  ∃ post, trace w1 = (post ++ trace w)%list.
Proof.
  unfold acquireWalletLock. unfold_monad.
  destruct (acquire_client_fault e); simpl.
  { intros [= <- <-]. repeat split. by exists []. }
  destruct (acquire_set_fault e); simpl.
  { intros [= <- <-]. repeat split. solve_post. }
  destruct (redis w !! wallet_lock_key userId) eqn:Hk; simpl.
  - intros [= <- <-]. repeat split. solve_post.
  - discriminate.
Qed.

Lemma balance_key_not_lock_key u u' :
  wallet_balance_key u ≠ wallet_lock_key u'.
Proof. unfold wallet_balance_key, wallet_lock_key. simpl. discriminate. Qed.

(** The steps of a mutating operation between acquisition and release. *)
Lemma perform_acquired u op e w l w1 :
  0 < input_amount op →
  acquireWalletLock u (purpose op) e w = (Return l, w1) →
  ∃ o1 wm,
    perform u op e w =
      (let '(o_rel, w') := releaseWalletLock (lockKey l) (lockValue l) e wm in
       (match o_rel with Return _ => o1 | Throw e' => Throw e' end, w')) ∧
    redis wm !! lockKey l =
      Some (mkEntry (lockValue l) (Some WALLET_LOCK_DURATION)) ∧
    (∃ post, trace wm = (post ++ ledger_call u op :: trace w1)%list) ∧
    match ledger_fault e with
    | Some err => o1 = Throw err ∧ ledger wm = ledger w
                  ∧ logged (failure_tag op) err wm
    | None =>
        (∃ type descr cur,
           ledger wm =
             <[template u :=
                 WalletRepository.appended
                   (WalletRepository.located u cur e (ledger w))
                   type (passed_amount op) descr e]> (ledger w)) ∧
        match cache_fault e with
        | Some err => o1 = Throw err ∧ logged (failure_tag op) err wm
        | None =>
            match socket_fault op e with
            | Some err => o1 = Throw err ∧ logged (failure_tag op) err wm
            | None => ∃ r, o1 = Return r
            end
        end
    end.
Proof.
  intros Ha Hacq.
  destruct (acquire_return _ _ _ _ _ _ Hacq) as (Hc & Hs & Hk & -> & ->).
  clear Hacq. unfold cache_fault, socket_fault, logged.
  destruct op; simpl in Ha; simpl perform;
    [unfold deposit|unfold withdraw|unfold placeBet|unfold processWinnings
    |unfold cashout];
    rewrite finally_spec;
    unfold acquireWalletLock, WalletRepository.deposit,
      WalletRepository.recordTransaction, WalletRepository.record;
    unfold_monad;
    rewrite (proj2 (Z.leb_gt _ _) Ha), Hc, Hs; simpl; rewrite Hk; simpl;
    split_faults e;
    (eexists _, _; split; [reflexivity|]); simpl;
    rewrite ?lookup_insert_ne by apply balance_key_not_lock_key;
    rewrite lookup_insert_eq;
    (split; [done|]); (split; [solve_post|]);
    try (split; [by eauto|]);
    try (split; [done|]);
    try (split; [done|]);
    try (eexists; split; [reflexivity|set_solver]);
    eauto.
Qed.

(** The same for [createWallet]. *)
Lemma createWallet_acquired u p e w l w1 :
  acquireWalletLock u p e w = (Return l, w1) →
  ∃ o1 wm,
    createWallet u e w =
      (let '(o_rel, w') := releaseWalletLock (lockKey l) (lockValue l) e wm in
       (match o_rel with Return _ => o1 | Throw e' => Throw e' end, w')) ∧
    redis wm !! lockKey l =
      Some (mkEntry (lockValue l) (Some WALLET_LOCK_DURATION)) ∧
    (∃ post, trace wm = (post ++ Call_createWallet u :: trace w1)%list).
Proof.
  intros Hacq.
  destruct (acquire_return _ _ _ _ _ _ Hacq) as (Hc & Hs & Hk & -> & ->).
  clear Hacq. unfold createWallet. rewrite finally_spec.
  unfold acquireWalletLock, WalletRepository.createWallet. unfold_monad.
  rewrite Hc, Hs. simpl. rewrite Hk. simpl.
  destruct (ledger_fault e) as [?|]; simpl;
    [|destruct (ledger w !! template u) as [?|]; simpl;
      [|destruct (cache_client_fault e) as [?|]; simpl;
        [|destruct (cache_set_fault e) as [?|]; simpl]]];
    (eexists _, _; split; [reflexivity|]); simpl;
    rewrite ?lookup_insert_ne by apply balance_key_not_lock_key;
    rewrite lookup_insert_eq; (split; [done|]); solve_post.
Qed.

(** The three exits of [releaseWalletLock]. *)
Lemma release_spec k v e w :
  releaseWalletLock k v e w =
    match release_client_fault e with
    | Some err => (Throw err, w)
    | None =>
        match release_eval_fault e with
        | Some err =>
            (Throw err,
             emit (Log error "WALLET_LOCK_RELEASE_FAILED"
                     [("lockKey", VStr k);
                      ("errorMessage", VStr (message err))])
               (emit (RedisEval k v) w))
        | None =>
            (Return tt,
             emit (Log info "WALLET_LOCK_RELEASED" [("lockKey", VStr k)])
               (set_redis (λ r, (unlockScript k v r).2)
                  (emit (RedisEval k v) w)))
        end
    end.
Proof.
  unfold releaseWalletLock. unfold_monad.
  destruct (release_client_fault e); [reflexivity|].
  destruct (release_eval_fault e); reflexivity.
Qed.

Lemma release_ledger k v e w o w' :
  releaseWalletLock k v e w = (o, w') → ledger w' = ledger w.
Proof.
  rewrite release_spec. intros H.
  destruct (release_client_fault e); [by simplify_eq|].
  destruct (release_eval_fault e); by simplify_eq.
Qed.

Lemma release_trace k v e w o w' :
  releaseWalletLock k v e w = (o, w') →
  ∃ post, trace w' = (post ++ trace w)%list.
Proof.
  rewrite release_spec. intros H.
  destruct (release_client_fault e); [simplify_eq; by exists []|].
  destruct (release_eval_fault e); simplify_eq; solve_post.
Qed.

Lemma release_own k v e w o w' ttl :
  releaseWalletLock k v e w = (o, w') →
  redis w !! k = Some (mkEntry v ttl) →
  release_fault e = None →
  o = Return tt ∧ redis w' = delete k (redis w).
Proof.
  rewrite release_spec. unfold release_fault. intros H Hk Hf.
  destruct (release_client_fault e); [discriminate|].
  rewrite Hf in H. simplify_eq. split; [done|]. simpl.
  unfold unlockScript. rewrite Hk. simpl. by rewrite decide_True.
Qed.

(** An amount that fails validation: one log line, then the error. *)
Lemma perform_invalid u op e w :
  input_amount op ≤ 0 →
  ∃ fields,
    perform u op e w =
      (Throw (mkError (validation_message op)),
       emit (Log error (failure_tag op) fields) w).
Proof.
  intros Ha.
  destruct op; simpl in Ha; simpl;
    [unfold deposit|unfold withdraw|unfold placeBet|unfold processWinnings
    |unfold cashout];
    unfold_monad; rewrite (proj2 (Z.leb_le _ _) Ha); simpl; eauto.
Qed.

(** A failed acquisition is logged by the method and rethrown. *)
Lemma perform_not_acquired u op e w err w1 :
  0 < input_amount op →
  acquireWalletLock u (purpose op) e w = (Throw err, w1) →
  ∃ fields,
    perform u op e w = (Throw err, emit (Log error (failure_tag op) fields) w1).
Proof.
  intros Ha Hacq.
  destruct op; simpl in *;
    [unfold deposit|unfold withdraw|unfold placeBet|unfold processWinnings
    |unfold cashout];
    rewrite finally_spec;
    unfold try_catch, mbind, M_bind, require_positive, lift;
    rewrite (proj2 (Z.leb_gt _ _) Ha); simpl; rewrite Hacq; simpl; eauto.
Qed.

(** ** Validation comes first *)

(** C4: for each of deposit, withdraw, placeBet, processWinnings and cashout,
    an amount that is zero or negative makes the call throw the method's
    validation error; Redis and the ledger are left as they were, and the
    only thing the call does is write one error line to the log, so no lock
    acquisition and no repository call is issued. *)
Theorem C4_invalid_amount_touches_nothing u op e w :
  input_amount op ≤ 0 →
  ∃ fields w',
    perform u op e w = (Throw (mkError (validation_message op)), w') ∧
    redis w' = redis w ∧
    ledger w' = ledger w ∧
    trace w' = Log error (failure_tag op) fields :: trace w.
Proof.
  intros Ha. destruct (perform_invalid u op e w Ha) as [fields Hrun].
  exists fields. eexists. split; [exact Hrun|]. done.
Qed.

Lemma C4_invalid_amount_witness :
  ∃ fields w',
    perform (VStr "u1") (PlaceBet (-5) (VStr "g1")) (quiet "t1" "w1" "x1")
      empty_world
    = (Throw (mkError "Bet amount must be positive"), w') ∧
    redis w' = ∅ ∧ ledger w' = ∅ ∧
    trace w' = [Log error "WALLET_BET_PLACEMENT_FAILED" fields].
Proof.
  apply (C4_invalid_amount_touches_nothing (VStr "u1")
           (PlaceBet (-5) (VStr "g1")) (quiet "t1" "w1" "x1") empty_world).
  simpl. lia.
Defined.

(** ** The lock is released on every exit *)

Lemma released_last_intro {A} (m : M World A) e l w1 w o1 wm post :
  m w =
    (let '(o_rel, w') := releaseWalletLock (lockKey l) (lockValue l) e wm in
     (match o_rel with Return _ => o1 | Throw e' => Throw e' end, w')) →
  redis wm !! lockKey l =
    Some (mkEntry (lockValue l) (Some WALLET_LOCK_DURATION)) →
  trace wm = (post ++ trace w1)%list →
  released_last m e l w1 w.
Proof.
  intros Hm Hk Ht.
  destruct (releaseWalletLock (lockKey l) (lockValue l) e wm) as [o_rel w']
    eqn:Hrel.
  exists o1, wm, o_rel, w'. split; [done|]. split; [done|].
  split; [rewrite Ht; by apply suffix_app_r|]. split; [done|]. split.
  - intros Hc. rewrite release_spec, Hc in Hrel.
    destruct (release_eval_fault e); simplify_eq; eauto.
  - intros Hf. destruct (release_own _ _ _ _ _ _ _ Hrel Hk Hf) as [_ ->].
    apply lookup_delete_eq.
Qed.

(** C2: whenever the per-user lock was acquired (acquisition succeeds for one
    purpose label exactly when it does for any other), each of deposit,
    withdraw, placeBet, processWinnings, cashout (with a valid amount) and
    createWallet ends with [releaseWalletLock] on that lock: whether the
    steps in between returned or threw, the release runs from the world they
    left, and the result or the error reaches the caller from the world the
    release left. *)
Theorem C2_release_runs_on_every_exit u p e w l w1 :
  acquireWalletLock u p e w = (Return l, w1) →
  (∀ op, 0 < input_amount op → released_last (perform u op e) e l w1 w) ∧
  released_last (createWallet u e) e l w1 w.
Proof.
  intros Hacq.
  destruct (acquire_return _ _ _ _ _ _ Hacq) as (Hc & Hs & Hk & _ & _).
  split.
  - intros op Ha.
    assert (acquireWalletLock u (purpose op) e w = (Return l, w1)) as Hop.
    { rewrite (acquire_free _ _ _ _ Hc Hs Hk).
      by rewrite (acquire_free _ _ _ _ Hc Hs Hk) in Hacq. }
    destruct (perform_acquired u op e w l w1 Ha Hop)
      as (o1 & wm & Hrun & Hheld & [post Ht] & _).
    eapply (released_last_intro _ _ _ _ _ o1 wm (post ++ [ledger_call u op]));
      [done|done|].
    by rewrite <- app_assoc.
  - destruct (createWallet_acquired u p e w l w1 Hacq)
      as (o1 & wm & Hrun & Hheld & [post Ht]).
    eapply (released_last_intro _ _ _ _ _ o1 wm
              (post ++ [Call_createWallet u])); [done|done|].
    by rewrite <- app_assoc.
Qed.

Lemma C2_release_witness :
  (∀ op, 0 < input_amount op →
     released_last (perform (VStr "u1") op (cache_down "t1" "w1" "x1"))
       (cache_down "t1" "w1" "x1") (mkLock "wallet_lock:u1" "t1")
       locked_u1 empty_world) ∧
  released_last (createWallet (VStr "u1") (cache_down "t1" "w1" "x1"))
    (cache_down "t1" "w1" "x1") (mkLock "wallet_lock:u1" "t1")
    locked_u1 empty_world.
Proof.
  apply (C2_release_runs_on_every_exit (VStr "u1") "cashout_transaction"
           (cache_down "t1" "w1" "x1") empty_world).
  vm_compute. reflexivity.
Defined.

(** ** The ledger invariant *)

(** An operation that returns has committed exactly its own transaction. *)
Lemma perform_return u op e w r w' :
  perform u op e w = (Return r, w') →
  ledger_call u op ∈ trace w' ∧
  ∃ type descr cur,
    ledger w' =
      <[template u :=
          WalletRepository.appended
            (WalletRepository.located u cur e (ledger w))
            type (passed_amount op) descr e]> (ledger w).
Proof.
  intros Hrun.
  destruct (decide (input_amount op ≤ 0)) as [Ha|Ha].
  { destruct (perform_invalid u op e w Ha) as [? H]. congruence. }
  apply Z.nle_gt in Ha.
  destruct (acquireWalletLock u (purpose op) e w) as [[l|err] w1] eqn:Hacq.
  2: { destruct (perform_not_acquired u op e w err w1 Ha Hacq) as [? H].
       congruence. }
  destruct (perform_acquired u op e w l w1 Ha Hacq)
    as (o1 & wm & Hp & _ & [post Ht] & Hcases).
  rewrite Hrun in Hp.
  destruct (releaseWalletLock (lockKey l) (lockValue l) e wm) as [o_rel w2]
    eqn:Hrel.
  destruct o_rel as [[]|]; [|discriminate]. injection Hp as <- <-.
  destruct (release_trace _ _ _ _ _ _ Hrel) as [post' Ht'].
  split.
  { rewrite Ht', Ht. set_solver. }
  rewrite (release_ledger _ _ _ _ _ _ Hrel).
  destruct (ledger_fault e); [by destruct Hcases|]. by destruct Hcases.
Qed.

Lemma appended_consistent wal type amt descr e :
  balance wal = sum_amounts (transactions wal) →
  consistent (WalletRepository.appended wal type amt descr e).
Proof.
  intros Hsum. split; simpl.
  - rewrite Hsum. lia.
  - by intros t [= <-].
Qed.

(** The invariant along a script whose calls all return. *)
Lemma run_script_wallet u script :
  ∀ w wal outs w',
    ledger w !! template u = Some wal →
    consistent wal →
    run_script script w = (outs, w') →
    Forall (λ o, is_return o = true) outs →
    ∃ wal',
      ledger w' !! template u = Some wal' ∧
      consistent wal' ∧
      amount <$> transactions wal' =
        (reverse (passed_amount <$> calls_on u script)
           ++ (amount <$> transactions wal))%list.
Proof.
  induction script as [|c rest IH]; intros w wal outs w' Hwal Hcons Hrun Hok.
  - injection Hrun as <- <-. exists wal. done.
  - simpl in Hrun.
    destruct (perform (call_user c) (call_op c) (call_env c) w) as [o w1]
      eqn:Hstep.
    destruct (run_script rest w1) as [os w2] eqn:Hrest.
    injection Hrun as <- <-.
    apply Forall_cons in Hok as [Ho Hos].
    destruct o as [r|]; [|discriminate].
    apply perform_return in Hstep as (_ & type & descr & cur & Hled).
    unfold calls_on.
    destruct (decide (template (call_user c) = template u)) as [Heq|Hne].
    + rewrite filter_cons_True by done. rewrite fmap_cons.
      unfold WalletRepository.located in Hled. rewrite Heq, Hwal in Hled.
      simpl in Hled.
      destruct (IH w1 _ os w2
                  ltac:(rewrite Hled; apply lookup_insert_eq)
                  (appended_consistent wal type (passed_amount (call_op c))
                     descr (call_env c) (proj1 Hcons))
                  Hrest Hos)
        as (wal' & Hw' & Hc' & Ham).
      exists wal'. split; [done|]. split; [done|].
      rewrite Ham. simpl. rewrite reverse_cons, <- app_assoc. done.
    + rewrite filter_cons_False by done.
      destruct (IH w1 wal os w2
                  ltac:(rewrite Hled; by rewrite lookup_insert_ne)
                  Hcons Hrest Hos)
        as (wal' & Hw' & Hc' & Ham).
      exists wal'. done.
Qed.

(** A wallet that [createWallet] has just returned is stored with balance 0
    and no transaction. *)
Lemma createWallet_creates u e w wal w' :
  createWallet u e w = (Return wal, w') →
  wal = mkWallet (new_walletId e) 0 "KSH" [] ∧
  ledger w' !! template u = Some wal.
Proof.
  unfold createWallet. rewrite finally_spec.
  unfold acquireWalletLock, WalletRepository.createWallet, releaseWalletLock.
  unfold_monad. simpl.
  destruct (acquire_client_fault e) as [?|]; simpl; [done|].
  destruct (acquire_set_fault e) as [?|]; simpl; [done|].
  destruct (redis w !! wallet_lock_key u) as [?|]; simpl; [done|].
  destruct (ledger_fault e) as [?|]; simpl;
    [|destruct (ledger w !! template u) as [?|]; simpl;
      [|destruct (cache_client_fault e) as [?|]; simpl;
        [|destruct (cache_set_fault e) as [?|]; simpl]]];
    (destruct (release_client_fault e) as [?|]; simpl;
      [|destruct (release_eval_fault e) as [?|]; simpl]);
    try done.
  intros [= <- <-]. simpl. by rewrite lookup_insert_eq.
Qed.

(** C1: start from a world in which the wallet of a user has just been
    created (balance 0, no transaction) and run any script of deposit,
    withdraw, placeBet, processWinnings and cashout calls, for this user and
    for others, all of which return.  Then the wallet's stored balance is the
    sum of the amounts of its recorded transactions, the [balanceAfter] of
    the newest recorded transaction is the stored balance, and the recorded
    amounts are, newest first, the amounts the calls for this user handed to
    the repository. *)
Theorem C1_balance_is_sum_of_recorded_amounts u script w wid cur outs w' :
  ledger w !! template u = Some (mkWallet wid 0 cur []) →
  run_script script w = (outs, w') →
  Forall (λ o, is_return o = true) outs →
  ∃ wal,
    ledger w' !! template u = Some wal ∧
    balance wal = sum_amounts (transactions wal) ∧
    (∀ t, head (transactions wal) = Some t → balanceAfter t = balance wal) ∧
    amount <$> transactions wal = reverse (passed_amount <$> calls_on u script).
Proof.
  intros Hnew Hrun Hok.
  destruct (run_script_wallet u script w _ outs w' Hnew
              ltac:(split; [done|by intros t [=]]) Hrun Hok)
    as (wal & Hw & [Hsum Hhead] & Ham).
  exists wal. rewrite app_nil_r in Ham. done.
Qed.

Lemma C1_balance_witness :
  ∃ wal,
    ledger (run_script scenario created_u1).2 !! "u1" = Some wal ∧
    balance wal = sum_amounts (transactions wal) ∧
    (∀ t, head (transactions wal) = Some t → balanceAfter t = balance wal) ∧
    amount <$> transactions wal = [1300; 500; -200; 1000].
Proof.
  apply (C1_balance_is_sum_of_recorded_amounts (VStr "u1") scenario
           created_u1 "w1" "KSH" (run_script scenario created_u1).1
           (run_script scenario created_u1).2).
  - vm_compute. reflexivity.
  - vm_compute. reflexivity.
  - vm_compute. repeat constructor.
Defined.

(** The running totals of the scenario of section 8. *)
Example scenario_balances :
  (λ o, match o with Return r => Some (newBalance r) | Throw _ => None end)
    <$> (run_script scenario created_u1).1
  = [Some 1000; Some 800; Some 1300; Some 2600].
Proof. vm_compute. reflexivity. Qed.

(** ** Lock manager *)

Lemma unlockScript_match k v r :
  entry_value <$> r !! k = Some v → (unlockScript k v r).2 = delete k r.
Proof. intros H. unfold unlockScript. by rewrite decide_True. Qed.

Lemma unlockScript_mismatch k v r :
  entry_value <$> r !! k ≠ Some v → (unlockScript k v r).2 = r.
Proof. intros H. unfold unlockScript. by rewrite decide_False. Qed.

Lemma release_redis k v e w o w' :
  releaseWalletLock k v e w = (o, w') →
  redis w' = redis w ∨
  (release_fault e = None ∧ o = Return tt ∧
   redis w' = (unlockScript k v (redis w)).2).
Proof.
  rewrite release_spec. unfold release_fault. intros H.
  destruct (release_client_fault e); [simplify_eq; by left|].
  destruct (release_eval_fault e); simplify_eq; [by left|by right].
Qed.

(** C3: [releaseWalletLock key token] leaves the store as it is whenever the
    value stored under the key is not the token (another holder's token, or
    no entry at all).  When Redis answers (the call itself does not fail in
    transport) it returns without error in both cases, it deletes the entry
    when the stored value is the token, and the entry disappears if and only
    if the stored value is the token. *)
Theorem C3_release_needs_matching_token k v e w o w' :
  releaseWalletLock k v e w = (o, w') →
  (entry_value <$> redis w !! k ≠ Some v → redis w' = redis w) ∧
  (release_fault e = None →
     o = Return tt ∧
     (entry_value <$> redis w !! k = Some v → redis w' = delete k (redis w)) ∧
     (is_Some (redis w !! k) ∧ redis w' !! k = None
      ↔ entry_value <$> redis w !! k = Some v)).
Proof.
  intros Hrel. split.
  - intros Hne. destruct (release_redis _ _ _ _ _ _ Hrel) as [H|(_ & _ & H)];
      [done|]. by rewrite H, unlockScript_mismatch.
  - intros Hf. destruct (release_redis _ _ _ _ _ _ Hrel) as [H|(_ & Ho & H)].
    { rewrite release_spec in Hrel. unfold release_fault in Hf.
      destruct (release_client_fault e); [discriminate|]. rewrite Hf in Hrel.
      simplify_eq. simpl in *. split; [done|].
      destruct (decide (entry_value <$> redis w !! k = Some v)) as [Hm|Hm].
      - rewrite unlockScript_match by done. split; [done|].
        rewrite lookup_delete_eq. split; [done|]. intros _. split; [|done].
        destruct (redis w !! k); [done|discriminate].
      - rewrite unlockScript_mismatch by done. split; [done|].
        split; [|done]. intros [[x Hx] Hnone]. congruence. }
    split; [done|].
    destruct (decide (entry_value <$> redis w !! k = Some v)) as [Hm|Hm].
    + rewrite H, unlockScript_match by done. split; [done|].
      rewrite lookup_delete_eq. split; [done|]. intros _. split; [|done].
      destruct (redis w !! k); [done|discriminate].
    + rewrite H, unlockScript_mismatch by done. split; [done|].
      split; [|done]. intros [[x Hx] Hnone]. congruence.
Qed.

Lemma C3_release_witness :
  (entry_value <$> redis held_by_A !! "wallet_lock:u1" ≠ Some "token-B" →
   redis (releaseWalletLock "wallet_lock:u1" "token-B"
            (quiet "t1" "w1" "x1") held_by_A).2
   = redis held_by_A) ∧
  (release_fault (quiet "t1" "w1" "x1") = None →
     (releaseWalletLock "wallet_lock:u1" "token-B"
        (quiet "t1" "w1" "x1") held_by_A).1 = Return tt ∧
     (entry_value <$> redis held_by_A !! "wallet_lock:u1" = Some "token-B" →
      redis (releaseWalletLock "wallet_lock:u1" "token-B"
               (quiet "t1" "w1" "x1") held_by_A).2
      = delete "wallet_lock:u1" (redis held_by_A)) ∧
     (is_Some (redis held_by_A !! "wallet_lock:u1") ∧
      redis (releaseWalletLock "wallet_lock:u1" "token-B"
               (quiet "t1" "w1" "x1") held_by_A).2 !! "wallet_lock:u1" = None
      ↔ entry_value <$> redis held_by_A !! "wallet_lock:u1"
        = Some "token-B")).
Proof.
  apply (C3_release_needs_matching_token "wallet_lock:u1" "token-B"
           (quiet "t1" "w1" "x1") held_by_A).
  vm_compute. reflexivity.
Defined.

(** Holder A's lock survives a release attempted with B's token. *)
Example foreign_release_keeps_lock :
  redis (releaseWalletLock "wallet_lock:u1" "token-B"
           (quiet "t1" "w1" "x1") held_by_A).2 !! "wallet_lock:u1"
  = Some (mkEntry "token-A" (Some WALLET_LOCK_DURATION)).
Proof. vm_compute. reflexivity. Qed.

Lemma acquire_held u p e w :
  is_Some (redis w !! wallet_lock_key u) →
  ∃ err w1,
    acquireWalletLock u p e w = (Throw err, w1) ∧
    (acquire_client_fault e = None → acquire_set_fault e = None →
     err = mkError "Wallet transaction in progress").
Proof.
  intros [x Hx]. unfold acquireWalletLock. unfold_monad.
  destruct (acquire_client_fault e); simpl;
    [eexists _, _; split; [reflexivity|done]|].
  destruct (acquire_set_fault e); simpl;
    [eexists _, _; split; [reflexivity|done]|].
  rewrite Hx. simpl. eauto.
Qed.

Lemma acquire_purpose u p1 p2 e w :
  (acquireWalletLock u p1 e w).1 = (acquireWalletLock u p2 e w).1 ∧
  redis (acquireWalletLock u p1 e w).2 = redis (acquireWalletLock u p2 e w).2 ∧
  ledger (acquireWalletLock u p1 e w).2 = ledger (acquireWalletLock u p2 e w).2.
Proof.
  unfold acquireWalletLock. unfold_monad.
  destruct (acquire_client_fault e); simpl; [done|].
  destruct (acquire_set_fault e); simpl; [done|].
  destruct (redis w !! wallet_lock_key u); simpl; done.
Qed.

(** C8: the lock key is ["wallet_lock:" + userId]; the purpose label only
    shows in log lines.  With another label the acquisition has the same
    outcome and leaves the same stores; and once a lock of the user is taken
    under one label, an acquisition under any other label fails (with
    'Wallet transaction in progress' when Redis answers), as does every
    mutating operation of that user, which then leaves the ledger alone. *)
Theorem C8_purpose_does_not_partition_lock u p1 p2 e e2 w l w1 :
  acquireWalletLock u p1 e w = (Return l, w1) →
  lockKey l = wallet_lock_key u ∧
  acquireWalletLock u p2 e w = (Return l, w1) ∧
  (∀ w0 e0,
     (acquireWalletLock u p1 e0 w0).1 = (acquireWalletLock u p2 e0 w0).1 ∧
     redis (acquireWalletLock u p1 e0 w0).2
       = redis (acquireWalletLock u p2 e0 w0).2) ∧
  (∃ err w2,
     acquireWalletLock u p2 e2 w1 = (Throw err, w2) ∧
     redis w2 = redis w1 ∧
     (acquire_client_fault e2 = None → acquire_set_fault e2 = None →
      err = mkError "Wallet transaction in progress")) ∧
  (∀ op, 0 < input_amount op →
     ∃ err w3, perform u op e2 w1 = (Throw err, w3) ∧ ledger w3 = ledger w1).
Proof.
  intros Hacq.
  destruct (acquire_return _ _ _ _ _ _ Hacq) as (Hc & Hs & Hk & Hl & Hw1).
  assert (is_Some (redis w1 !! wallet_lock_key u)) as Hheld.
  { rewrite Hw1. simpl. rewrite lookup_insert_eq. eauto. }
  split; [by rewrite Hl|]. split.
  { rewrite (acquire_free _ _ _ _ Hc Hs Hk).
    by rewrite (acquire_free _ _ _ _ Hc Hs Hk) in Hacq. }
  split.
  { intros w0 e0. destruct (acquire_purpose u p1 p2 e0 w0) as (? & ? & ?).
    done. }
  split.
  - destruct (acquire_held u p2 e2 w1 Hheld) as (err & w2 & H2 & Hmsg).
    exists err, w2. split; [done|]. split; [|done].
    by destruct (acquire_throw _ _ _ _ _ _ H2) as (? & _).
  - intros op Ha.
    destruct (acquire_held u (purpose op) e2 w1 Hheld) as (err & w2 & H2 & _).
    destruct (perform_not_acquired u op e2 w1 err w2 Ha H2) as [fields Hp].
    eexists _, _. split; [exact Hp|]. simpl.
    by destruct (acquire_throw _ _ _ _ _ _ H2) as (_ & ? & _).
Qed.

Lemma C8_purpose_witness :
  lockKey (mkLock "wallet_lock:u1" "t1") = wallet_lock_key (VStr "u1") ∧
  acquireWalletLock (VStr "u1") "bet_placement_transaction"
    (quiet "t1" "w1" "x1") empty_world
  = (Return (mkLock "wallet_lock:u1" "t1"), locked_u1) ∧
  (∀ w0 e0,
     (acquireWalletLock (VStr "u1") "deposit_transaction" e0 w0).1
     = (acquireWalletLock (VStr "u1") "bet_placement_transaction" e0 w0).1 ∧
     redis (acquireWalletLock (VStr "u1") "deposit_transaction" e0 w0).2
     = redis
         (acquireWalletLock (VStr "u1") "bet_placement_transaction" e0 w0).2) ∧
  (∃ err w2,
     acquireWalletLock (VStr "u1") "bet_placement_transaction"
       (quiet "t2" "w1" "x2") locked_u1 = (Throw err, w2) ∧
     redis w2 = redis locked_u1 ∧
     (acquire_client_fault (quiet "t2" "w1" "x2") = None →
      acquire_set_fault (quiet "t2" "w1" "x2") = None →
      err = mkError "Wallet transaction in progress")) ∧
  (∀ op, 0 < input_amount op →
     ∃ err w3,
       perform (VStr "u1") op (quiet "t2" "w1" "x2") locked_u1
       = (Throw err, w3) ∧
       ledger w3 = ledger locked_u1).
Proof.
  apply (C8_purpose_does_not_partition_lock (VStr "u1")
           "deposit_transaction" "bet_placement_transaction"
           (quiet "t1" "w1" "x1") (quiet "t2" "w1" "x2") empty_world).
  vm_compute. reflexivity.
Defined.

(** ** Reading the balance *)

(** C9: with a falsy user id (undefined, null, false, 0, the empty string)
    [getUserProfileBalance] throws 'Invalid User ID'; it writes two error
    lines to the log and nothing else happens: no verification call, no
    Redis command, and Redis and the ledger are as before. *)
Theorem C9_falsy_user_id_rejected_first u e w :
  truthy u = false →
  ∃ w',
    getUserProfileBalance u e w = (Throw (mkError "Invalid User ID"), w') ∧
    redis w' = redis w ∧
    ledger w' = ledger w ∧
    trace w' =
      Log error "User profile balance retrieval failed"
        [("userId", u); ("errorMessage", VStr "Invalid User ID")]
      :: Log error "INVALID_USER_ID"
           [("message", VStr "User ID is undefined or null"); ("userId", u)]
      :: trace w.
Proof.
  intros Hu. unfold getUserProfileBalance. unfold_monad. rewrite Hu. simpl.
  eexists. split; [reflexivity|]. done.
Qed.

Lemma C9_falsy_user_id_witness :
  ∃ w',
    getUserProfileBalance (VNum 0) (quiet "t1" "w1" "x1") created_u1
    = (Throw (mkError "Invalid User ID"), w') ∧
    redis w' = redis created_u1 ∧
    ledger w' = ledger created_u1 ∧
    trace w' =
      Log error "User profile balance retrieval failed"
        [("userId", VNum 0); ("errorMessage", VStr "Invalid User ID")]
      :: Log error "INVALID_USER_ID"
           [("message", VStr "User ID is undefined or null");
            ("userId", VNum 0)]
      :: trace created_u1.
Proof.
  apply (C9_falsy_user_id_rejected_first (VNum 0) (quiet "t1" "w1" "x1")
           created_u1).
  reflexivity.
Defined.

(** ** Signed amounts *)

Lemma ledger_call_amount u op :
  call_amount (ledger_call u op) = Some (passed_amount op).
Proof. by destruct op. Qed.

(** Deposit, bet, win and cashout hand the repository the amount that the
    specification names. *)
Lemma passed_is_claimed op :
  (∀ a d, op ≠ Withdraw a d) → passed_amount op = claimed_amount op.
Proof. intros H. destruct op; try done. by destruct (H amount0 description). Qed.

(** A successful operation has issued its repository call, and the amount
    argument of that call is [passed_amount]. *)
Lemma successful_call u op e w r w' :
  perform u op e w = (Return r, w') →
  ∃ ev, ev ∈ trace w' ∧ ev = ledger_call u op ∧
        call_amount ev = Some (passed_amount op).
Proof.
  intros H. apply perform_return in H as [Hin _].
  exists (ledger_call u op). by rewrite ledger_call_amount.
Qed.

(** C5, at the failing input: a withdrawal of 100 from a wallet holding 500
    succeeds; the one repository call it issues is [recordTransaction] of type
    'withdraw' with amount +100, where the signed amount of a withdrawal is
    -100, and under the ledger contract the balance becomes 600. *)
Theorem C5_withdraw_passes_unsigned_amount :
  let run := withdraw (VStr "u1") 100 "Manual Withdrawal"
               (quiet "t1" "w1" "x1") funded_u1 in
  is_return run.1 = true ∧
  repository_calls (trace run.2) =
    [Call_recordTransaction (VStr "u1") "withdraw" 100 VNull
       "Manual Withdrawal"] ∧
  passed_amount (Withdraw 100 "Manual Withdrawal") = 100 ∧
  claimed_amount (Withdraw 100 "Manual Withdrawal") = -100 ∧
  balance <$> ledger run.2 !! "u1" = Some 600.
Proof. vm_compute. done. Qed.

(** ** Cache failures *)

(** C6, as stated, fails: a deposit whose cache write throws after the
    ledger write throws that error to the caller, while the deposit stays
    in the ledger. *)
Lemma C6_cache_failure_reaches_caller :
  (let run := deposit (VStr "u1") 1000 "Manual Deposit" "manual" "KSH"
                (cache_down "t1" "w1" "x1") created_u1 in
   run.1 = Throw (mkError "redis unavailable") ∧
   balance <$> ledger run.2 !! "u1" = Some 1000) ∧
  ¬ cache_failure_swallowed.
Proof.
  split; [by vm_compute|].
  intros H.
  destruct (H (VStr "u1") (Deposit 1000 "Manual Deposit" "manual" "KSH")
              (cache_down "t1" "w1" "x1") created_u1
              (mkLock "wallet_lock:u1" "t1")
              (acquireWalletLock (VStr "u1") "deposit_transaction"
                 (cache_down "t1" "w1" "x1") created_u1).2
              (mkError "redis unavailable"))
    as (r & w' & Hrun); [done|by vm_compute|done|done|].
  vm_compute in Hrun. discriminate.
Qed.

(** C6, amended: when the lock is held and the ledger write has succeeded, a
    failure of the cache write is logged by the method's catch block and the
    operation throws (the cache error, unless the release fails as well);
    the ledger keeps the transaction. *)
Theorem C6_cache_failure_is_logged_and_thrown u op e w l w1 err :
  0 < input_amount op →
  acquireWalletLock u (purpose op) e w = (Return l, w1) →
  ledger_fault e = None →
  cache_fault e = Some err →
  ∃ err' w',
    perform u op e w = (Throw err', w') ∧
    (release_fault e = None → err' = err) ∧
    (∃ fields,
       Log error (failure_tag op) fields ∈ trace w' ∧
       ("errorMessage", VStr (message err)) ∈ fields) ∧
    (∃ type descr cur,
       ledger w' =
         <[template u :=
             WalletRepository.appended
               (WalletRepository.located u cur e (ledger w))
               type (passed_amount op) descr e]> (ledger w)).
Proof.
  intros Ha Hacq Hled Hcache.
  destruct (perform_acquired u op e w l w1 Ha Hacq)
    as (o1 & wm & Hp & _ & _ & Hcases).
  rewrite Hled, Hcache in Hcases.
  destruct Hcases as (Hcommit & -> & fields & Hhead & Hmsg).
  destruct (releaseWalletLock (lockKey l) (lockValue l) e wm) as [o_rel w']
    eqn:Hrel.
  destruct (release_trace _ _ _ _ _ _ Hrel) as [post Ht].
  assert (Log error (failure_tag op) fields ∈ trace w') as Hin.
  { rewrite Ht. apply elem_of_app. right.
    destruct (trace wm) as [|ev rest]; simpl in Hhead; simplify_eq.
    apply list_elem_of_here. }
  exists (match o_rel with Return _ => err | Throw e' => e' end), w'.
  split; [rewrite Hp; by destruct o_rel|].
  split; [|split; [by eauto|]].
  - intros Hf. rewrite release_spec in Hrel. unfold release_fault in Hf.
    destruct (release_client_fault e); [discriminate|]. rewrite Hf in Hrel.
    by simplify_eq.
  - by rewrite (release_ledger _ _ _ _ _ _ Hrel).
Qed.

Lemma C6_cache_failure_witness :
  ∃ err' w',
    perform (VStr "u1") (Deposit 1000 "Manual Deposit" "manual" "KSH")
      (cache_down "t1" "w1" "x1") created_u1 = (Throw err', w') ∧
    (release_fault (cache_down "t1" "w1" "x1") = None →
     err' = mkError "redis unavailable") ∧
    (∃ fields,
       Log error "WALLET_DEPOSIT_FAILED" fields ∈ trace w' ∧
       ("errorMessage", VStr "redis unavailable") ∈ fields) ∧
    (∃ type descr cur,
       ledger w' =
         <["u1" :=
             WalletRepository.appended
               (WalletRepository.located (VStr "u1") cur
                  (cache_down "t1" "w1" "x1") (ledger created_u1))
               type 1000 descr (cache_down "t1" "w1" "x1")]>
           (ledger created_u1)).
Proof.
  apply (C6_cache_failure_is_logged_and_thrown (VStr "u1")
           (Deposit 1000 "Manual Deposit" "manual" "KSH")
           (cache_down "t1" "w1" "x1") created_u1
           (mkLock "wallet_lock:u1" "t1")
           (acquireWalletLock (VStr "u1") "deposit_transaction"
              (cache_down "t1" "w1" "x1") created_u1).2
           (mkError "redis unavailable")).
  - simpl. lia.
  - vm_compute. reflexivity.
  - reflexivity.
  - reflexivity.
Defined.


(** ** Concurrent callers and the lock *)











(** The drift of [drifted_u1] is corrected by one balance read. *)
Example drift_corrected :
  let run := getUserProfileBalance (VStr "u1") (quiet "t1" "w1" "x1")
               drifted_u1 in
  (match run.1 with
   | Return r => Some (resp_balance r, balanceVerified r)
   | Throw _ => None
   end) = Some (500, true) ∧
  balance <$> ledger run.2 !! "u1" = Some 500 ∧
  redis run.2 !! "wallet_lock:u1" = None.
Proof. vm_compute. done. Qed.

(** A deposit of another caller for [u1], scheduled between the summing and
    the corrective write of a reconciliation of [drifted_u1], is refused,
    and the reconciliation ends with the corrected row. *)
Example rival_deposit_refused :
  let start :=
    (acquireWalletLock (VStr "u1") "balance_reconciliation"
       (quiet "t1" "w1" "x1") drifted_u1).2 in
  let run := WalletRepository.reconcile (concurrent [] rival_deposit [])
               (VStr "u1") (quiet "t1" "w1" "x1") drifted_u1 in
  (is_return <$> (run_script rival_deposit start).1) = [false] ∧
  is_return run.1 = true ∧
  ledger run.2 !! "u1" =
    Some (mkWallet "w1" 500 "KSH"
            [mkTransaction "x0" "deposit" 500 500 "Manual Deposit"]).
Proof. vm_compute. done. Qed.

(** The same deposit after the reconciliation has released the lock goes
    through. *)
Example rival_deposit_afterwards :
  let run := WalletRepository.reconcile WalletRepository.undisturbed
               (VStr "u1") (quiet "t1" "w1" "x1") drifted_u1 in
  (is_return <$> (run_script rival_deposit run.2).1) = [true] ∧
  balance <$> ledger (after_script rival_deposit run.2) !! "u1" = Some 1500.
Proof. vm_compute. done. Qed.

(** In a returning balance read the lock is released by the reconciliation;
    the write of the balance key that [getUserProfileBalance] issues next
    is not under the lock. *)
Example profile_cache_write_follows_release :
  let run := getUserProfileBalance (VStr "u1") (quiet "t1" "w1" "x1")
               drifted_u1 in
  ∃ newer older,
    trace run.2 =
      (newer ++ RedisSet "wallet_balance:u1" "500" false None
         :: older ++ RedisEval "wallet_lock:u1" "t1"
         :: RedisSet "wallet_lock:u1" "t1" true (Some WALLET_LOCK_DURATION)
         :: [Call_verifyAndSyncBalance (VStr "u1");
             Log info "BALANCE_RETRIEVAL_ATTEMPT" [("userId", VStr "u1")]])%list.
Proof. vm_compute. by eexists [_], [_; _]. Qed.

(** ** Game history *)

Lemma slice_to_take {A} (limit : Z) (l : list A) :
  0 ≤ limit → GameRepository.slice_to limit l = take (Z.to_nat limit) l.
Proof.
  intros Hl. unfold GameRepository.slice_to.
  rewrite (proj2 (Z.ltb_ge _ _) Hl).
  destruct (decide (limit ≤ Z.of_nat (length l))) as [Hle|Hgt].
  - by rewrite Z.min_l.
  - rewrite Z.min_r by lia. rewrite Nat2Z.id.
    rewrite !take_ge; [done|lia|lia].
Qed.

(** One save: put the round first and keep 100 entries. *)
Lemma save_take g now h :
  (length h ≤ 100)%nat →
  (GameRepository.saveGameResult g now h).2
  = take 100 (GameRepository.stored_of g now :: h).
Proof.
  intros Hlen. unfold GameRepository.saveGameResult.
  cbn [snd]. destruct (100 <? length _)%nat eqn:Hfull.
  - apply Nat.ltb_lt in Hfull. cbn [length] in Hfull.
    rewrite removelast_firstn_len. cbn [length Nat.pred].
    by replace (length h) with 100%nat by lia.
  - apply Nat.ltb_ge in Hfull. by rewrite take_ge.
Qed.

Lemma take_app_take {A} n (l k : list A) :
  take n (l ++ take n k) = take n (l ++ k).
Proof.
  rewrite !take_app, take_take. by replace (_ `min` n)%nat with (n - length l)%nat by lia.
Qed.

(** Any number of saves. *)
Lemma save_all_take rounds :
  ∀ h, (length h ≤ 100)%nat →
    GameRepository.save_all rounds h
    = take 100 (reverse ((λ r, GameRepository.stored_of r.1 r.2) <$> rounds)
                  ++ h).
Proof.
  induction rounds as [|r rest IH]; intros h Hlen.
  - simpl. by rewrite take_ge.
  - unfold GameRepository.save_all in *. cbn [foldl].
    rewrite IH.
    + rewrite save_take by done. rewrite take_app_take.
      rewrite fmap_cons, reverse_cons, <- app_assoc. done.
    + rewrite save_take by done. rewrite length_take. lia.
Qed.

(** C10: the history starts empty and every [saveGameResult] keeps it at
    no more than 100 entries, putting the saved round first and dropping
    the oldest entry when there would be 101.  After any list of rounds
    was saved the history is the 100 most recently saved rounds, newest
    first; [getGameHistory limit] (limit not negative) is its first
    [limit] entries, 10 when the limit is left out; and
    [getLastGameResult] is the round saved last, or null when none was. *)
Theorem C10_game_history_invariant rounds limit :
  0 ≤ limit →
  let h := GameRepository.save_all rounds GameRepository.constructor in
  let saved :=
    reverse ((λ r, GameRepository.stored_of r.1 r.2) <$> rounds) in
  (length h ≤ 100)%nat ∧
  h = take 100 saved ∧
  GameRepository.getGameHistory (Some limit) h = take (Z.to_nat limit) h ∧
  GameRepository.getGameHistory None h = take 10 h ∧
  GameRepository.getLastGameResult h = head saved ∧
  (∀ g now h0,
     (length h0 ≤ 100)%nat →
     let h1 := (GameRepository.saveGameResult g now h0).2 in
     (length h1 ≤ 100)%nat ∧
     h1 = take 100 (GameRepository.stored_of g now :: h0) ∧
     GameRepository.getLastGameResult h1
       = Some (GameRepository.stored_of g now) ∧
     (GameRepository.saveGameResult g now h0).1 = g).
Proof.
  intros Hl h saved.
  assert (h = take 100 saved) as Hh.
  { unfold h. rewrite save_all_take by (simpl; lia). by rewrite app_nil_r. }
  split; [rewrite Hh, length_take; lia|].
  split; [done|].
  split; [by apply slice_to_take|].
  split; [by apply (slice_to_take 10)|].
  split; [rewrite Hh; by destruct saved|].
  intros g now h0 Hlen h1. unfold h1. rewrite save_take by done.
  split; [rewrite length_take; lia|]. done.
Qed.

Lemma C10_game_history_witness :
  let rounds :=
    [(GameRepository.mkGameResult (VStr "g1") 523
        [GameRepository.mkPlayer (VStr "p1") 200 "won" []], 1000);
     (GameRepository.mkGameResult (VStr "g2") 500 [], 2000)] in
  let h := GameRepository.save_all rounds GameRepository.constructor in
  let saved :=
    reverse ((λ r, GameRepository.stored_of r.1 r.2) <$> rounds) in
  (length h ≤ 100)%nat ∧
  h = take 100 saved ∧
  GameRepository.getGameHistory (Some 1) h = take (Z.to_nat 1) h ∧
  GameRepository.getGameHistory None h = take 10 h ∧
  GameRepository.getLastGameResult h = head saved ∧
  (∀ g now h0,
     (length h0 ≤ 100)%nat →
     let h1 := (GameRepository.saveGameResult g now h0).2 in
     (length h1 ≤ 100)%nat ∧
     h1 = take 100 (GameRepository.stored_of g now :: h0) ∧
     GameRepository.getLastGameResult h1
       = Some (GameRepository.stored_of g now) ∧
     (GameRepository.saveGameResult g now h0).1 = g).
Proof.
  apply (C10_game_history_invariant
           [(GameRepository.mkGameResult (VStr "g1") 523
               [GameRepository.mkPlayer (VStr "p1") 200 "won" []], 1000);
            (GameRepository.mkGameResult (VStr "g2") 500 [], 2000)] 1).
  lia.
Defined.

(** Two saved rounds: the later one is first and is the last result. *)
Example two_rounds_newest_first :
  let h :=
    GameRepository.save_all
      [(GameRepository.mkGameResult (VStr "g1") 523 [], 1000);
       (GameRepository.mkGameResult (VStr "g2") 500 [], 2000)]
      GameRepository.constructor in
  GameRepository.st_gameId <$> h = [VStr "g2"; VStr "g1"] ∧
  GameRepository.st_gameId <$> GameRepository.getLastGameResult h
    = Some (VStr "g2") ∧
  GameRepository.getLastGameResult GameRepository.constructor = None.
Proof. vm_compute. done. Qed.

(** With 101 rounds saved, the first one is gone. *)
Example oldest_round_dropped :
  let rounds :=
    (λ n, (GameRepository.mkGameResult (VNum (Z.of_nat n)) 500 [],
           Z.of_nat n)) <$> seq 0 101 in
  let h := GameRepository.save_all rounds GameRepository.constructor in
  length h = 100%nat ∧
  GameRepository.st_gameId <$> head h = Some (VNum 100) ∧
  GameRepository.st_gameId <$> last h = Some (VNum 1).
Proof. vm_compute. done. Qed.

(** * Further properties of the wallet service *)

(** The steps between acquisition and release, in full: the outcome, the
    Redis store and the socket traffic they leave. *)
Lemma perform_acquired_detail u op e w l w1 :
  0 < input_amount op →
  acquireWalletLock u (purpose op) e w = (Return l, w1) →
  let res := expected_result op e (ledger w !! template u) in
  ∃ o1 wm,
    perform u op e w =
      (let '(o_rel, w') := releaseWalletLock (lockKey l) (lockValue l) e wm in
       (match o_rel with Return _ => o1 | Throw e' => Throw e' end, w')) ∧
    unlock_calls (trace wm) = unlock_calls (trace w) ∧
    match ledger_fault e with
    | Some err =>
        o1 = Throw err ∧ redis wm = redis w1 ∧ ledger wm = ledger w ∧
        emitted (trace wm) = emitted (trace w)
    | None =>
        balance <$> ledger wm !! template u = Some (newBalance res) ∧
        match cache_fault e with
        | Some err =>
            o1 = Throw err ∧ redis wm = redis w1 ∧
            emitted (trace wm) = emitted (trace w)
        | None =>
            redis wm =
              <[wallet_balance_key u := mkEntry (pretty (newBalance res)) None]>
                (redis w1) ∧
            match broadcast_of u op res, wallet_socket e with
            | Some ev, Some fault =>
                emitted (trace wm) = ev :: emitted (trace w) ∧
                o1 = match fault with
                     | Some err => Throw err
                     | None => Return res
                     end
            | _, _ =>
                emitted (trace wm) = emitted (trace w) ∧ o1 = Return res
            end
        end
    end.
Proof.
  intros Ha Hacq.
  destruct (acquire_return _ _ _ _ _ _ Hacq) as (Hc & Hs & Hk & -> & ->).
  clear Hacq. unfold cache_fault, expected_result.
  destruct op; simpl in Ha; simpl perform; simpl broadcast_of;
    [unfold deposit|unfold withdraw|unfold placeBet|unfold processWinnings
    |unfold cashout];
    rewrite finally_spec;
    unfold acquireWalletLock, WalletRepository.deposit,
      WalletRepository.recordTransaction, WalletRepository.record,
      WalletRepository.located;
    unfold_monad;
    rewrite (proj2 (Z.leb_gt _ _) Ha), Hc, Hs; simpl; rewrite Hk; simpl;
    split_faults e;
    (eexists _, _; split; [reflexivity|]); simpl;
    (split; [done|]); rewrite ?lookup_insert_eq;
    destruct (ledger w !! template u); simpl; done.
Qed.

(** ** Lock round trips *)

(** X1: taking the lock and releasing it with the returned key and value
    leaves Redis and the ledger exactly as they were before. *)
Theorem lock_round_trip u p e e' w l w1 o w2 :
  acquireWalletLock u p e w = (Return l, w1) →
  release_fault e' = None →
  releaseWalletLock (lockKey l) (lockValue l) e' w1 = (o, w2) →
  o = Return tt ∧ redis w2 = redis w ∧ ledger w2 = ledger w.
Proof.
  intros Hacq Hf Hrel.
  destruct (acquire_return _ _ _ _ _ _ Hacq) as (_ & _ & Hk & -> & ->).
  simpl in Hrel.
  destruct (release_own _ _ _ _ _ _ (Some WALLET_LOCK_DURATION) Hrel
              ltac:(simpl; apply lookup_insert_eq) Hf) as [-> Hr].
  split; [done|]. split.
  - rewrite Hr. simpl. by apply delete_insert_id.
  - by rewrite (release_ledger _ _ _ _ _ _ Hrel).
Qed.

Lemma lock_round_trip_witness :
  (releaseWalletLock "wallet_lock:u1" "t1" (quiet "t9" "w1" "x1")
     locked_u1).1 = Return tt ∧
  redis (releaseWalletLock "wallet_lock:u1" "t1" (quiet "t9" "w1" "x1")
           locked_u1).2 = redis empty_world ∧
  ledger (releaseWalletLock "wallet_lock:u1" "t1" (quiet "t9" "w1" "x1")
            locked_u1).2 = ledger empty_world.
Proof.
  apply (lock_round_trip (VStr "u1") "deposit_transaction"
           (quiet "t1" "w1" "x1") (quiet "t9" "w1" "x1") empty_world
           (mkLock "wallet_lock:u1" "t1") locked_u1).
  - vm_compute. reflexivity.
  - reflexivity.
  - vm_compute. reflexivity.
Defined.

(** X2: a release that Redis answered has nothing left to do: releasing
    again with the same key and value changes nothing, whatever was stored,
    and does not fail when Redis answers again. *)
Theorem release_twice k v e1 e2 w o1 w1 o2 w2 :
  releaseWalletLock k v e1 w = (o1, w1) →
  release_fault e1 = None →
  releaseWalletLock k v e2 w1 = (o2, w2) →
  redis w2 = redis w1 ∧ (release_fault e2 = None → o2 = Return tt).
Proof.
  intros H1 Hf1 H2.
  assert (entry_value <$> redis w1 !! k ≠ Some v) as Hne.
  { destruct (release_redis _ _ _ _ _ _ H1) as [Hsame|(_ & _ & Hr)].
    - rewrite release_spec in H1. unfold release_fault in Hf1.
      destruct (release_client_fault e1); [discriminate|].
      rewrite Hf1 in H1. simplify_eq. simpl.
      unfold unlockScript. case_decide; simpl; [|done].
      by rewrite lookup_delete_eq.
    - rewrite Hr. unfold unlockScript. case_decide; simpl; [|done].
      by rewrite lookup_delete_eq. }
  split.
  - destruct (release_redis _ _ _ _ _ _ H2) as [Hsame|(_ & _ & Hr)]; [done|].
    by rewrite Hr, unlockScript_mismatch.
  - intros Hf2. rewrite release_spec in H2. unfold release_fault in Hf2.
    destruct (release_client_fault e2); [discriminate|].
    rewrite Hf2 in H2. by simplify_eq.
Qed.

Lemma release_twice_witness :
  let first := releaseWalletLock "wallet_lock:u1" "t1" (quiet "a" "w1" "x1")
                 locked_u1 in
  let second := releaseWalletLock "wallet_lock:u1" "t1" (quiet "b" "w1" "x1")
                  first.2 in
  redis second.2 = redis first.2 ∧
  (release_fault (quiet "b" "w1" "x1") = None → second.1 = Return tt).
Proof.
  apply (release_twice "wallet_lock:u1" "t1" (quiet "a" "w1" "x1")
           (quiet "b" "w1" "x1") locked_u1
           (releaseWalletLock "wallet_lock:u1" "t1" (quiet "a" "w1" "x1")
              locked_u1).1).
  - vm_compute. reflexivity.
  - reflexivity.
  - vm_compute. reflexivity.
Defined.

(** ** Exits of the mutating operations *)

(** A failed acquisition sends no unlock script, no wallet update and no
    repository call. *)
Lemma acquire_throw_quiet u p e w err w1 :
  acquireWalletLock u p e w = (Throw err, w1) →
  unlock_calls (trace w1) = unlock_calls (trace w) ∧
  emitted (trace w1) = emitted (trace w) ∧
  repository_calls (trace w1) = repository_calls (trace w).
Proof.
  unfold acquireWalletLock. unfold_monad.
  destruct (acquire_client_fault e); simpl; [by intros [= <- <-]|].
  destruct (acquire_set_fault e); simpl; [by intros [= <- <-]|].
  destruct (redis w !! wallet_lock_key u); simpl; [by intros [= <- <-]|done].
Qed.

Lemma createWallet_not_acquired u e w err w1 :
  acquireWalletLock u "wallet_creation" e w = (Throw err, w1) →
  createWallet u e w =
    (Throw err,
     emit (Log error "Wallet creation failed"
             [("userId", u); ("errorMessage", VStr (message err))]) w1).
Proof.
  intros Hacq. unfold createWallet. rewrite finally_spec.
  unfold try_catch, mbind, M_bind, lift. simpl. rewrite Hacq. done.
Qed.

(** X3: when the lock cannot be taken (another holder has it, or Redis
    fails; the purpose label makes no difference to that), deposit,
    withdraw, placeBet, processWinnings, cashout (amount valid) and
    createWallet throw the acquisition's error and leave Redis, with the
    other holder's lock, and the ledger as they were; they send no
    repository call and no unlock script. *)
Theorem failed_acquisition_touches_nothing u p e w err w1 :
  acquireWalletLock u p e w = (Throw err, w1) →
  (∀ op,
     0 < input_amount op →
     ∃ w', perform u op e w = (Throw err, w') ∧
           redis w' = redis w ∧ ledger w' = ledger w ∧
           unlock_calls (trace w') = unlock_calls (trace w) ∧
           repository_calls (trace w') = repository_calls (trace w)) ∧
  (∃ w', createWallet u e w = (Throw err, w') ∧
         redis w' = redis w ∧ ledger w' = ledger w ∧
         unlock_calls (trace w') = unlock_calls (trace w) ∧
         repository_calls (trace w') = repository_calls (trace w)).
Proof.
  intros Hp.
  assert (∀ q, ∃ wq, acquireWalletLock u q e w = (Throw err, wq)) as Hany.
  { intros q. destruct (acquire_purpose u p q e w) as (Ho & _).
    rewrite Hp in Ho. simpl in Ho.
    destruct (acquireWalletLock u q e w) as [oq wq]. simpl in Ho.
    exists wq. by rewrite Ho. }
  split.
  - intros op Ha. destruct (Hany (purpose op)) as [wq Hacq].
    destruct (perform_not_acquired u op e w err wq Ha Hacq) as [fields Hrun].
    destruct (acquire_throw _ _ _ _ _ _ Hacq) as (Hr & Hl & _).
    destruct (acquire_throw_quiet _ _ _ _ _ _ Hacq) as (Hu & _ & Hc).
    eexists. split; [exact Hrun|]. done.
  - destruct (Hany "wallet_creation") as [wq Hacq].
    destruct (acquire_throw _ _ _ _ _ _ Hacq) as (Hr & Hl & _).
    destruct (acquire_throw_quiet _ _ _ _ _ _ Hacq) as (Hu & _ & Hc).
    eexists. split; [by apply createWallet_not_acquired|]. done.
Qed.

Lemma failed_acquisition_witness :
  (∀ op,
     0 < input_amount op →
     ∃ w', perform (VStr "u1") op (quiet "t2" "w1" "x1") held_by_A
           = (Throw (mkError "Wallet transaction in progress"), w') ∧
           redis w' = redis held_by_A ∧ ledger w' = ledger held_by_A ∧
           unlock_calls (trace w') = unlock_calls (trace held_by_A) ∧
           repository_calls (trace w')
             = repository_calls (trace held_by_A)) ∧
  (∃ w', createWallet (VStr "u1") (quiet "t2" "w1" "x1") held_by_A
         = (Throw (mkError "Wallet transaction in progress"), w') ∧
         redis w' = redis held_by_A ∧ ledger w' = ledger held_by_A ∧
         unlock_calls (trace w') = unlock_calls (trace held_by_A) ∧
         repository_calls (trace w') = repository_calls (trace held_by_A)).
Proof.
  apply (failed_acquisition_touches_nothing (VStr "u1") "deposit_transaction"
           (quiet "t2" "w1" "x1") held_by_A
           (mkError "Wallet transaction in progress")
           (acquireWalletLock (VStr "u1") "deposit_transaction"
              (quiet "t2" "w1" "x1") held_by_A).2).
  vm_compute. reflexivity.
Defined.

(** What an operation that returns has done, apart from the ledger. *)
Lemma perform_return_detail u op e w r w' :
  perform u op e w = (Return r, w') →
  redis w !! wallet_lock_key u = None ∧
  r = expected_result op e (ledger w !! template u) ∧
  redis w' =
    <[wallet_balance_key u := mkEntry (pretty (newBalance r)) None]>
      (redis w) ∧
  emitted (trace w') =
    match broadcast_of u op r, wallet_socket e with
    | Some ev, Some _ => ev :: emitted (trace w)
    | _, _ => emitted (trace w)
    end ∧
  unlock_calls (trace w') =
    RedisEval (wallet_lock_key u) (uuid e) :: unlock_calls (trace w).
Proof.
  intros Hrun.
  destruct (decide (input_amount op ≤ 0)) as [Ha|Ha].
  { destruct (perform_invalid u op e w Ha) as [? H]. congruence. }
  apply Z.nle_gt in Ha.
  destruct (acquireWalletLock u (purpose op) e w) as [[l|err] w1] eqn:Hacq.
  2: { destruct (perform_not_acquired u op e w err w1 Ha Hacq) as [? H].
       congruence. }
  destruct (perform_acquired_detail u op e w l w1 Ha Hacq)
    as (o1 & wm & Hp & Hun & Hcases).
  destruct (acquire_return _ _ _ _ _ _ Hacq) as (_ & _ & Hk & -> & ->).
  rewrite Hrun in Hp. rewrite release_spec in Hp. simpl in Hp, Hcases.
  destruct (release_client_fault e); [discriminate|].
  destruct (release_eval_fault e); [discriminate|].
  injection Hp as Ho1 ->. simpl.
  split; [done|].
  destruct (ledger_fault e); [destruct Hcases as [? _]; congruence|].
  destruct Hcases as [_ Hcases].
  destruct (cache_fault e); [destruct Hcases as [? _]; congruence|].
  destruct Hcases as [Hredis Hsock].
  assert (o1 = Return (expected_result op e (ledger w !! template u)) ∧
          emitted (trace wm) =
            match broadcast_of u op
                    (expected_result op e (ledger w !! template u)),
                  wallet_socket e with
            | Some ev, Some _ => ev :: emitted (trace w)
            | _, _ => emitted (trace w)
            end) as [Ho Hem].
  { destruct (broadcast_of u op _) as [ev|];
      [destruct (wallet_socket e) as [[?|]|]|]; destruct Hsock as [? Ho2];
      simplify_eq; done. }
  simplify_eq. split; [done|]. split; [|by rewrite Hun].
  rewrite Hredis. unfold unlockScript.
  rewrite lookup_insert_ne by apply balance_key_not_lock_key.
  rewrite lookup_insert_eq. simpl. rewrite decide_True by done. simpl.
  rewrite delete_insert_ne by (intros H; by apply (balance_key_not_lock_key u u)).
  by rewrite delete_insert_id.
Qed.

(** X4: when deposit, withdraw, placeBet, processWinnings or cashout
    returns, the lock was free before the call and Redis afterwards is the
    store from before the call plus one entry: the user's cached balance,
    without expiry, holding the returned [newBalance].  So the lock is
    gone again and no other key was touched. *)
Theorem returned_balance_is_cached u op e w r w' :
  perform u op e w = (Return r, w') →
  redis w !! wallet_lock_key u = None ∧
  redis w' =
    <[wallet_balance_key u := mkEntry (pretty (newBalance r)) None]>
      (redis w).
Proof.
  intros Hrun.
  by destruct (perform_return_detail _ _ _ _ _ _ Hrun) as (Hk & _ & Hr & _).
Qed.

Lemma returned_balance_witness :
  let run := perform (VStr "u1") (PlaceBet 200 (VStr "g1"))
               (quiet "t1" "w1" "x1") funded_u1 in
  redis funded_u1 !! wallet_lock_key (VStr "u1") = None ∧
  redis run.2 =
    <[wallet_balance_key (VStr "u1") :=
        mkEntry (pretty (newBalance (mkResult 300 "w1" "x1"))) None]>
      (redis funded_u1).
Proof.
  apply (returned_balance_is_cached (VStr "u1") (PlaceBet 200 (VStr "g1"))
           (quiet "t1" "w1" "x1") funded_u1
           (mkResult 300 "w1" "x1")).
  vm_compute. reflexivity.
Defined.

(** ** Exits after the lock was taken *)

(** X5: when the repository call throws after the lock was taken, the
    operation throws; the user's cached balance is as before and no wallet
    update is sent, and when the release is answered the error is the
    repository's and all of Redis is as before the call. *)
Theorem repository_failure_leaves_no_trace u op e w l w1 err :
  0 < input_amount op →
  acquireWalletLock u (purpose op) e w = (Return l, w1) →
  ledger_fault e = Some err →
  ∃ err' w',
    perform u op e w = (Throw err', w') ∧
    redis w' !! wallet_balance_key u = redis w !! wallet_balance_key u ∧
    emitted (trace w') = emitted (trace w) ∧
    (release_fault e = None → err' = err ∧ redis w' = redis w).
Proof.
  intros Ha Hacq Hled.
  destruct (perform_acquired_detail u op e w l w1 Ha Hacq)
    as (o1 & wm & Hp & _ & Hcases).
  rewrite Hled in Hcases. destruct Hcases as (-> & Hredis & Hl & Hem).
  destruct (acquire_return _ _ _ _ _ _ Hacq) as (_ & _ & Hk & -> & ->).
  rewrite release_spec in Hp. unfold release_fault. simpl in *.
  destruct (release_client_fault e) as [?|];
    [|destruct (release_eval_fault e) as [?|]];
    (eexists _, _; split; [exact Hp|]); simpl; rewrite Hredis.
  - rewrite lookup_insert_ne; [done|].
    intros H. symmetry in H. by apply balance_key_not_lock_key in H.
  - rewrite lookup_insert_ne; [done|].
    intros H. symmetry in H. by apply balance_key_not_lock_key in H.
  - unfold unlockScript. rewrite lookup_insert_eq. simpl.
    rewrite decide_True by done. simpl.
    rewrite delete_insert_id by done. done.
Qed.

Lemma repository_failure_witness :
  let e := mkEnv "t1" None None (Some (mkError "connection lost")) "w1" "x1"
             None None None None None in
  ∃ err' w',
    perform (VStr "u1") (Cashout 50 (VStr "g1")) e funded_u1
    = (Throw err', w') ∧
    redis w' !! wallet_balance_key (VStr "u1")
      = redis funded_u1 !! wallet_balance_key (VStr "u1") ∧
    emitted (trace w') = emitted (trace funded_u1) ∧
    (release_fault e = None →
     err' = mkError "connection lost" ∧ redis w' = redis funded_u1).
Proof.
  apply (repository_failure_leaves_no_trace (VStr "u1")
           (Cashout 50 (VStr "g1"))
           (mkEnv "t1" None None (Some (mkError "connection lost")) "w1" "x1"
              None None None None None) funded_u1
           (mkLock "wallet_lock:u1" "t1")
           (acquireWalletLock (VStr "u1") "cashout_transaction"
              (mkEnv "t1" None None (Some (mkError "connection lost"))
                 "w1" "x1" None None None None None) funded_u1).2).
  - simpl. lia.
  - vm_compute. reflexivity.
  - reflexivity.
Defined.

(** X6: a socket whose [emitWalletUpdate] throws fails placeBet,
    processWinnings and cashout after the fact: the operation throws (the
    socket's error when the release is answered), while the repository
    call has succeeded, its new balance is in the cache, and the update
    carrying that balance was handed to the socket. *)
Theorem socket_failure_after_commit u op e w l w1 err :
  0 < input_amount op →
  acquireWalletLock u (purpose op) e w = (Return l, w1) →
  ledger_fault e = None →
  cache_fault e = None →
  socket_fault op e = Some err →
  ∃ err' w' r ev,
    perform u op e w = (Throw err', w') ∧
    (release_fault e = None → err' = err) ∧
    redis w' !! wallet_balance_key u
      = Some (mkEntry (pretty (newBalance r)) None) ∧
    broadcast_of u op r = Some ev ∧
    emitted (trace w') = ev :: emitted (trace w).
Proof.
  intros Ha Hacq Hled Hcache Hsock.
  destruct (perform_acquired_detail u op e w l w1 Ha Hacq)
    as (o1 & wm & Hp & _ & Hcases).
  rewrite Hled, Hcache in Hcases.
  set (res := expected_result op e (ledger w !! template u)) in *.
  destruct Hcases as (Hbal & Hredis & Hbro).
  assert (∃ ev, broadcast_of u op res = Some ev ∧
                wallet_socket e = Some (Some err)) as (ev & Hev & Hws).
  { unfold socket_fault in Hsock.
    destruct op; try discriminate; simpl;
      destruct (wallet_socket e) as [[?|]|]; simplify_eq; eauto. }
  rewrite Hev, Hws in Hbro. destruct Hbro as [Hem ->].
  destruct (acquire_return _ _ _ _ _ _ Hacq) as (_ & _ & Hk & -> & ->).
  rewrite release_spec in Hp. unfold release_fault. simpl in Hp.
  destruct (release_client_fault e) as [?|];
    [|destruct (release_eval_fault e) as [?|]];
    (eexists _, _, res, ev; split; [exact Hp|]); simpl;
    (split; [done|]); (split; [|done]); rewrite Hredis.
  - by rewrite lookup_insert_eq.
  - by rewrite lookup_insert_eq.
  - unfold unlockScript. case_decide; simpl.
    + rewrite lookup_delete_ne; [by rewrite lookup_insert_eq|].
      intros H'. symmetry in H'. by apply balance_key_not_lock_key in H'.
    + by rewrite lookup_insert_eq.
Qed.

Lemma socket_failure_witness :
  let e := mkEnv "t1" None None None "w1" "x1" None None
             (Some (Some (mkError "socket closed"))) None None in
  ∃ err' w' r ev,
    perform (VStr "u1") (PlaceBet 200 (VStr "g1")) e funded_u1
      = (Throw err', w') ∧
    (release_fault e = None → err' = mkError "socket closed") ∧
    redis w' !! wallet_balance_key (VStr "u1")
      = Some (mkEntry (pretty (newBalance r)) None) ∧
    broadcast_of (VStr "u1") (PlaceBet 200 (VStr "g1")) r = Some ev ∧
    emitted (trace w') = ev :: emitted (trace funded_u1).
Proof.
  apply (socket_failure_after_commit (VStr "u1") (PlaceBet 200 (VStr "g1"))
           (mkEnv "t1" None None None "w1" "x1" None None
              (Some (Some (mkError "socket closed"))) None None)
           funded_u1 (mkLock "wallet_lock:u1" "t1")
           (acquireWalletLock (VStr "u1") "bet_placement_transaction"
              (mkEnv "t1" None None None "w1" "x1" None None
                 (Some (Some (mkError "socket closed"))) None None)
              funded_u1).2).
  - simpl. lia.
  - vm_compute. reflexivity.
  - reflexivity.
  - reflexivity.
  - reflexivity.
Defined.

(** X7: what a returning operation sends to the wallet socket: placeBet,
    processWinnings and cashout send exactly one update when a socket is
    set, carrying the returned wallet id and new balance, the type 'bet',
    'win' or 'cashout', the amount as the caller gave it (a bet's amount
    unsigned) and the game id; without a socket they send nothing, and
    deposit and withdraw never send one. *)
Theorem wallet_update_of_returning_operation u op e w r w' :
  perform u op e w = (Return r, w') →
  emitted (trace w') =
    match broadcast_of u op r, wallet_socket e with
    | Some ev, Some _ => ev :: emitted (trace w)
    | _, _ => emitted (trace w)
    end.
Proof.
  intros Hrun.
  by destruct (perform_return_detail _ _ _ _ _ _ Hrun) as (_ & _ & _ & H & _).
Qed.

Lemma wallet_update_witness :
  let e := mkEnv "t1" None None None "w1" "x1" None None (Some None) None
             None in
  emitted (trace (perform (VStr "u1") (PlaceBet 200 (VStr "g1")) e
                    funded_u1).2) =
    match broadcast_of (VStr "u1") (PlaceBet 200 (VStr "g1"))
            (mkResult 300 "w1" "x1"), wallet_socket e with
    | Some ev, Some _ => ev :: emitted (trace funded_u1)
    | _, _ => emitted (trace funded_u1)
    end.
Proof.
  apply (wallet_update_of_returning_operation (VStr "u1")
           (PlaceBet 200 (VStr "g1"))
           (mkEnv "t1" None None None "w1" "x1" None None (Some None) None
              None) funded_u1 (mkResult 300 "w1" "x1")).
  vm_compute. reflexivity.
Defined.

(** ** Wallet creation and balance reads *)

(** X8: when [createWallet] returns, the lock was free before the call and
    Redis afterwards is the store from before plus the user's cached
    balance, without expiry, holding the balance of the returned wallet. *)
Theorem created_wallet_is_cached u e w wal w' :
  createWallet u e w = (Return wal, w') →
  redis w !! wallet_lock_key u = None ∧
  redis w' =
    <[wallet_balance_key u := mkEntry (pretty (balance wal)) None]>
      (redis w).
Proof.
  unfold createWallet. rewrite finally_spec.
  unfold acquireWalletLock, WalletRepository.createWallet, releaseWalletLock.
  unfold_monad. simpl.
  destruct (acquire_client_fault e) as [?|]; simpl; [done|].
  destruct (acquire_set_fault e) as [?|]; simpl; [done|].
  destruct (redis w !! wallet_lock_key u) as [?|] eqn:Hk; simpl; [done|].
  destruct (ledger_fault e) as [?|]; simpl;
    [|destruct (ledger w !! template u) as [?|]; simpl;
      [|destruct (cache_client_fault e) as [?|]; simpl;
        [|destruct (cache_set_fault e) as [?|]; simpl]]];
    (destruct (release_client_fault e) as [?|]; simpl;
      [|destruct (release_eval_fault e) as [?|]; simpl]);
    try done.
  intros [= <- <-]. simpl. split; [done|].
  unfold unlockScript.
  rewrite lookup_insert_ne by apply balance_key_not_lock_key.
  rewrite lookup_insert_eq. simpl. rewrite decide_True by done. simpl.
  rewrite delete_insert_ne
    by (intros H; symmetry in H; by apply balance_key_not_lock_key in H).
  by rewrite delete_insert_id.
Qed.

Lemma created_wallet_witness :
  redis empty_world !! wallet_lock_key (VStr "u1") = None ∧
  redis (createWallet (VStr "u1") (quiet "t1" "w1" "x1") empty_world).2 =
    <[wallet_balance_key (VStr "u1") :=
        mkEntry (pretty (balance (mkWallet "w1" 0 "KSH" []))) None]>
      (redis empty_world).
Proof.
  apply (created_wallet_is_cached (VStr "u1") (quiet "t1" "w1" "x1")
           empty_world (mkWallet "w1" 0 "KSH" [])).
  vm_compute. reflexivity.
Defined.

(** [getUserProfileBalance] after its two checks, by the outcome of the
    reconciliation and of the cache write. *)
Lemma profile_cases u e w :
  truthy u = true →
  cache_client_fault e = None →
  match WalletRepository.verifyAndSyncBalance u e
          (emit (Log info "BALANCE_RETRIEVAL_ATTEMPT" [("userId", u)]) w) with
  | (Throw err, wv) =>
      ∃ w', getUserProfileBalance u e w = (Throw err, w') ∧
            redis w' = redis wv ∧ ledger w' = ledger wv
  | (Return v, wv) =>
      match cache_set_fault e with
      | Some err =>
          ∃ w', getUserProfileBalance u e w = (Throw err, w') ∧
                redis w' = redis wv ∧ ledger w' = ledger wv
      | None =>
          ∃ w', getUserProfileBalance u e w =
                  (Return (mkResponse u (calculatedBalance v) "KSH"
                             (corrected v) (reason v)), w') ∧
                redis w' =
                  <[wallet_balance_key u :=
                      mkEntry (pretty (calculatedBalance v)) None]>
                    (redis wv) ∧
                ledger w' = ledger wv
      end
  end.
Proof.
  intros Hu Hcc.
  remember (getUserProfileBalance u e w) as run eqn:Hrun.
  unfold getUserProfileBalance in Hrun.
  unfold try_catch at 1 in Hrun.
  unfold mbind at 1, M_bind at 1 in Hrun. rewrite Hu in Hrun. simpl in Hrun.
  unfold mbind at 1, M_bind at 1 in Hrun. rewrite Hcc in Hrun. simpl in Hrun.
  unfold mbind at 1, M_bind at 1 in Hrun.
  unfold logger at 1, modify at 1 in Hrun.
  unfold mbind at 1, M_bind at 1 in Hrun.
  destruct (WalletRepository.verifyAndSyncBalance u e _) as [[v|err] wv].
  - unfold_monad. simpl in Hrun.
    destruct (cache_set_fault e) as [?|]; simpl in Hrun; subst run;
      eexists; (split; [reflexivity|]); done.
  - unfold_monad. simpl in Hrun. subst run.
    eexists; (split; [reflexivity|]); done.
Qed.

(** X9: when [getUserProfileBalance] returns, the response echoes the
    user id with currency 'KSH', and what the call has put in the cache
    under the user's balance key, without expiry, is the balance of the
    response. *)
Theorem returned_profile_balance_is_cached u e w r w' :
  getUserProfileBalance u e w = (Return r, w') →
  resp_userId r = u ∧ resp_currency r = "KSH" ∧
  redis w' !! wallet_balance_key u
    = Some (mkEntry (pretty (resp_balance r)) None).
Proof.
  intros Hrun.
  destruct (truthy u) eqn:Hu.
  2: { revert Hrun. unfold getUserProfileBalance. unfold_monad.
       rewrite Hu. simpl. done. }
  destruct (cache_client_fault e) as [err|] eqn:Hcc.
  { revert Hrun. unfold getUserProfileBalance. unfold_monad.
    rewrite Hu, Hcc. simpl. done. }
  pose proof (profile_cases u e w Hu Hcc) as Hcases.
  destruct (WalletRepository.verifyAndSyncBalance u e _) as [[v|err] wv].
  2: { destruct Hcases as (? & H & _). congruence. }
  destruct (cache_set_fault e).
  { destruct Hcases as (? & H & _). congruence. }
  destruct Hcases as (w2 & H & Hredis & Hled).
  rewrite Hrun in H. injection H as -> ->. simpl.
  rewrite Hredis. by rewrite lookup_insert_eq.
Qed.

Lemma returned_profile_balance_witness :
  let r := mkResponse (VStr "u1") 500 "KSH" true
             (Some "stored balance differed from transaction history") in
  resp_userId r = VStr "u1" ∧ resp_currency r = "KSH" ∧
  redis (getUserProfileBalance (VStr "u1") (quiet "t1" "w1" "x1")
           drifted_u1).2 !! wallet_balance_key (VStr "u1")
    = Some (mkEntry (pretty (resp_balance r)) None).
Proof.
  apply (returned_profile_balance_is_cached (VStr "u1")
           (quiet "t1" "w1" "x1") drifted_u1
           (mkResponse (VStr "u1") 500 "KSH" true
              (Some "stored balance differed from transaction history"))).
  vm_compute. reflexivity.
Defined.

(** * Further properties of the game history *)

(** X10: after [n] rounds were saved into the empty history, it holds
    [n] entries up to 100 and exactly 100 from then on: no round is
    dropped before the bound is reached. *)
Theorem history_length rounds :
  length (GameRepository.save_all rounds GameRepository.constructor)
  = (length rounds `min` 100)%nat.
Proof.
  rewrite save_all_take by (simpl; lia).
  rewrite app_nil_r, length_take, length_reverse, length_fmap. lia.
Qed.

Lemma StronglySorted_reverse {A} (R : relation A) (l : list A) :
  StronglySorted R l → StronglySorted (flip R) (reverse l).
Proof.
  induction 1 as [|x l Hl IH Hx]; [constructor|].
  rewrite reverse_cons. apply StronglySorted_app. split; [|split].
  - intros y z Hy Hz. rewrite elem_of_reverse in Hy.
    apply list_elem_of_singleton in Hz as ->.
    rewrite Forall_forall in Hx. unfold flip. by apply Hx.
  - done.
  - repeat constructor.
Qed.

Lemma StronglySorted_weaken {A} (R R' : relation A) (l : list A) :
  (∀ x y, R x y → R' x y) → StronglySorted R l → StronglySorted R' l.
Proof.
  intros HR. induction 1 as [|x l Hl IH Hx]; constructor; [done|].
  eapply Forall_impl; [exact Hx|]. intros y. apply HR.
Qed.

(** X11: when the clock does not run backwards between saves, the stored
    timestamps never increase from the front of the history to its end:
    the entries are in order of time, newest first. *)
Theorem history_newest_first rounds :
  StronglySorted Z.le (snd <$> rounds) →
  StronglySorted Z.ge
    (timestamps (GameRepository.save_all rounds GameRepository.constructor)).
Proof.
  intros Hclock. rewrite save_all_take by (simpl; lia).
  rewrite app_nil_r. unfold timestamps. rewrite fmap_take, fmap_reverse.
  rewrite <- list_fmap_compose.
  assert (StronglySorted Z.ge (reverse (snd <$> rounds))) as Hrev.
  { apply StronglySorted_reverse in Hclock.
    eapply StronglySorted_weaken; [|exact Hclock].
    intros x y. unfold flip. lia. }
  replace (GameRepository.timestamp ∘ _ <$> rounds) with (snd <$> rounds)
    by (apply list_fmap_ext; by intros ? [? ?]).
  rewrite <- (take_drop 100 (reverse (snd <$> rounds))) in Hrev.
  by apply StronglySorted_app_1_l in Hrev.
Qed.

Lemma history_newest_first_witness :
  StronglySorted Z.ge
    (timestamps
       (GameRepository.save_all
          [(GameRepository.mkGameResult (VStr "g1") 523 [], 1000);
           (GameRepository.mkGameResult (VStr "g2") 500 [], 1000);
           (GameRepository.mkGameResult (VStr "g3") 731 [], 2500)]
          GameRepository.constructor)).
Proof.
  apply (history_newest_first
           [(GameRepository.mkGameResult (VStr "g1") 523 [], 1000);
            (GameRepository.mkGameResult (VStr "g2") 500 [], 1000);
            (GameRepository.mkGameResult (VStr "g3") 731 [], 2500)]).
  simpl. repeat constructor; lia.
Defined.

(** X12: a negative limit is not an error and not an empty answer:
    [getGameHistory limit] then returns the history without its [-limit]
    oldest entries (nothing when there are no more than that). *)
Theorem history_negative_limit limit h :
  limit < 0 →
  GameRepository.getGameHistory (Some limit) h
  = take (length h - Z.to_nat (- limit)) h.
Proof.
  intros Hneg. unfold GameRepository.getGameHistory, GameRepository.slice_to.
  simpl. rewrite (proj2 (Z.ltb_lt _ _) Hneg). f_equal. lia.
Qed.

Lemma history_negative_limit_witness :
  GameRepository.getGameHistory (Some (-1))
    (GameRepository.save_all
       [(GameRepository.mkGameResult (VStr "g1") 523 [], 1000);
        (GameRepository.mkGameResult (VStr "g2") 500 [], 2000)]
       GameRepository.constructor)
  = take (length
            (GameRepository.save_all
               [(GameRepository.mkGameResult (VStr "g1") 523 [], 1000);
                (GameRepository.mkGameResult (VStr "g2") 500 [], 2000)]
               GameRepository.constructor) - Z.to_nat (- -1))
      (GameRepository.save_all
         [(GameRepository.mkGameResult (VStr "g1") 523 [], 1000);
          (GameRepository.mkGameResult (VStr "g2") 500 [], 2000)]
         GameRepository.constructor).
Proof.
  apply (history_negative_limit (-1)). lia.
Defined.

(** * depositFunds and withdrawFunds *)

Ltac unfold_funds :=
  unfold depositFunds, withdrawFunds, redis_get, call_repository, EX in *.

(** X13: [depositFunds] and [withdrawFunds] check the amount before
    anything else: with an amount that is zero or negative they throw
    their validation error, write one error line to the log, and neither
    Redis nor the ledger is touched, whatever the repository would do. *)
Theorem funds_invalid_amount_touches_nothing
    repository_deposit repository_withdraw u amount d fe e w :
  amount ≤ 0 →
  depositFunds repository_deposit u amount d fe w =
    (Throw (mkError "Deposit amount must be positive"),
     emit (Log error "Funds deposit failed"
             [("userId", u); ("amount", VNum amount);
              ("errorMessage", VStr "Deposit amount must be positive")]) w) ∧
  withdrawFunds repository_withdraw u amount d e w =
    (Throw (mkError "Withdrawal amount must be positive"),
     emit (Log error "Funds withdrawal failed"
             [("userId", u); ("amount", VNum amount);
              ("errorMessage", VStr "Withdrawal amount must be positive")])
       w).
Proof.
  intros Ha. unfold_funds. unfold_monad.
  rewrite (proj2 (Z.leb_le _ _) Ha). done.
Qed.

Lemma funds_invalid_amount_witness :
  depositFunds sample_deposit (VStr "u1") 0 "Manual Deposit"
    (mkFundsEnv (quiet "t1" "w1" "x1") None None) funded_u1 =
    (Throw (mkError "Deposit amount must be positive"),
     emit (Log error "Funds deposit failed"
             [("userId", VStr "u1"); ("amount", VNum 0);
              ("errorMessage", VStr "Deposit amount must be positive")])
       funded_u1) ∧
  withdrawFunds sample_withdraw (VStr "u1") 0 "Manual Withdrawal"
    (quiet "t1" "w1" "x1") funded_u1 =
    (Throw (mkError "Withdrawal amount must be positive"),
     emit (Log error "Funds withdrawal failed"
             [("userId", VStr "u1"); ("amount", VNum 0);
              ("errorMessage", VStr "Withdrawal amount must be positive")])
       funded_u1).
Proof.
  apply (funds_invalid_amount_touches_nothing sample_deposit sample_withdraw
           (VStr "u1") 0 "Manual Deposit"
           (mkFundsEnv (quiet "t1" "w1" "x1") None None)
           (quiet "t1" "w1" "x1") funded_u1).
  lia.
Defined.

Lemma id_key_not_lock_key u u' : wallet_id_key u ≠ wallet_lock_key u'.
Proof. unfold wallet_id_key, wallet_lock_key. simpl. discriminate. Qed.

Lemma id_key_not_balance_key u u' : wallet_id_key u ≠ wallet_balance_key u'.
Proof. unfold wallet_id_key, wallet_balance_key. simpl. discriminate. Qed.

(** The steps of [depositFunds] between acquisition and release. *)
Lemma depositFunds_acquired repo u amount d fe w l w1 :
  0 < amount →
  acquireWalletLock u "deposit_transaction" (base fe) w = (Return l, w1) →
  ∃ o1 wm post,
    depositFunds repo u amount d fe w =
      (let '(o_rel, w') :=
         releaseWalletLock (lockKey l) (lockValue l) (base fe) wm in
       (match o_rel with Return _ => o1 | Throw e' => Throw e' end, w')) ∧
    redis wm !! lockKey l =
      Some (mkEntry (lockValue l) (Some WALLET_LOCK_DURATION)) ∧
    trace wm = (post ++ trace w1)%list.
Proof.
  intros Ha Hacq.
  destruct (acquire_return _ _ _ _ _ _ Hacq) as (Hc & Hs & Hk & -> & ->).
  clear Hacq. unfold depositFunds. rewrite finally_spec.
  unfold acquireWalletLock. unfold_funds. unfold_monad.
  rewrite (proj2 (Z.leb_gt _ _) Ha), Hc, Hs. simpl. rewrite Hk. simpl.
  destruct (cache_client_fault (base fe)) as [?|]; simpl;
    [|destruct (id_get_fault fe) as [?|]; simpl;
      [|destruct (repo u _ amount d (ledger w)) as [[r|?] rows]; simpl;
        [destruct (cache_set_fault (base fe)) as [?|]; simpl;
          [|destruct (replied _); simpl;
            [|destruct (id_set_fault fe) as [?|]; simpl]]|]]];
    eexists _, _; eexists; (split; [reflexivity|]); simpl;
    rewrite ?lookup_insert_ne
      by first [apply balance_key_not_lock_key|apply id_key_not_lock_key];
    rewrite lookup_insert_eq; (split; [done|]);
    first [ by instantiate (1 := []) | by instantiate (1 := [_])
          | by instantiate (1 := [_; _]) | by instantiate (1 := [_; _; _]) ].
Qed.

(** The steps of [withdrawFunds] between acquisition and release. *)
Lemma withdrawFunds_acquired repo u amount d e w l w1 :
  0 < amount →
  acquireWalletLock u "withdrawal_transaction" e w = (Return l, w1) →
  ∃ o1 wm post,
    withdrawFunds repo u amount d e w =
      (let '(o_rel, w') := releaseWalletLock (lockKey l) (lockValue l) e wm in
       (match o_rel with Return _ => o1 | Throw e' => Throw e' end, w')) ∧
    redis wm !! lockKey l =
      Some (mkEntry (lockValue l) (Some WALLET_LOCK_DURATION)) ∧
    trace wm = (post ++ trace w1)%list.
Proof.
  intros Ha Hacq.
  destruct (acquire_return _ _ _ _ _ _ Hacq) as (Hc & Hs & Hk & -> & ->).
  clear Hacq. unfold withdrawFunds. rewrite finally_spec.
  unfold acquireWalletLock. unfold_funds. unfold_monad.
  rewrite (proj2 (Z.leb_gt _ _) Ha), Hc, Hs. simpl. rewrite Hk. simpl.
  destruct (repo u amount d (ledger w)) as [[r|?] rows]; simpl;
    [destruct (cache_client_fault e) as [?|]; simpl;
      [|destruct (cache_set_fault e) as [?|]; simpl]|];
    eexists _, _; eexists; (split; [reflexivity|]); simpl;
    rewrite ?lookup_insert_ne by apply balance_key_not_lock_key;
    rewrite lookup_insert_eq; (split; [done|]);
    first [ by instantiate (1 := []) | by instantiate (1 := [_])
          | by instantiate (1 := [_; _]) | by instantiate (1 := [_; _; _]) ].
Qed.

(** X14: once the lock is taken, [depositFunds] and [withdrawFunds] (amount
    valid) end with [releaseWalletLock] on that lock on every exit,
    whatever the repository call and the Redis calls in between do; the
    caller's result or error is decided after the release. *)
Theorem funds_release_runs_on_every_exit
    repository_deposit repository_withdraw u p amount d fe w l w1 :
  0 < amount →
  acquireWalletLock u p (base fe) w = (Return l, w1) →
  released_last (depositFunds repository_deposit u amount d fe) (base fe)
    l w1 w ∧
  released_last (withdrawFunds repository_withdraw u amount d (base fe))
    (base fe) l w1 w.
Proof.
  intros Ha Hacq.
  destruct (acquire_return _ _ _ _ _ _ Hacq) as (Hc & Hs & Hk & _ & _).
  assert (∀ q, acquireWalletLock u q (base fe) w = (Return l, w1)) as Hany.
  { intros q. rewrite (acquire_free _ _ _ _ Hc Hs Hk).
    by rewrite (acquire_free _ _ _ _ Hc Hs Hk) in Hacq. }
  split.
  - destruct (depositFunds_acquired repository_deposit u amount d fe w l w1
                Ha (Hany _)) as (o1 & wm & post & Hrun & Hheld & Ht).
    by eapply (released_last_intro _ _ _ _ _ o1 wm post).
  - destruct (withdrawFunds_acquired repository_withdraw u amount d (base fe)
                w l w1 Ha (Hany _)) as (o1 & wm & post & Hrun & Hheld & Ht).
    by eapply (released_last_intro _ _ _ _ _ o1 wm post).
Qed.

Lemma funds_release_witness :
  released_last
    (depositFunds sample_deposit (VStr "u1") 100 "Manual Deposit"
       (mkFundsEnv (cache_down "t1" "w1" "x1") None None))
    (cache_down "t1" "w1" "x1") (mkLock "wallet_lock:u1" "t1")
    locked_u1 empty_world ∧
  released_last
    (withdrawFunds sample_withdraw (VStr "u1") 100 "Manual Deposit"
       (cache_down "t1" "w1" "x1"))
    (cache_down "t1" "w1" "x1") (mkLock "wallet_lock:u1" "t1")
    locked_u1 empty_world.
Proof.
  apply (funds_release_runs_on_every_exit sample_deposit sample_withdraw
           (VStr "u1") "deposit_transaction" 100 "Manual Deposit"
           (mkFundsEnv (cache_down "t1" "w1" "x1") None None) empty_world).
  - lia.
  - vm_compute. reflexivity.
Defined.

Lemma release_after_caching (k : string) (x : RedisEntry)
    (r : gmap string RedisEntry) (f : gmap string RedisEntry →
                                      gmap string RedisEntry) :
  r !! k = None →
  f (<[k := x]> r) !! k = Some x →
  delete k (f (<[k := x]> r)) = f r →
  (unlockScript k (entry_value x) (f (<[k := x]> r))).2 = f r.
Proof.
  intros Hk Hheld Hdel. unfold unlockScript. rewrite Hheld. simpl.
  by rewrite decide_True.
Qed.

(** X15: when [depositFunds] returns, its result is the repository's,
    which was handed the wallet id cached in Redis (undefined when none
    or an empty one is cached) and has acted on the ledger once.  The
    lock was free before the call, and Redis afterwards is the store from
    before plus the cached balance (the returned [newBalance], expiring
    after 24 hours) and, only when no wallet id was cached, the returned
    wallet id under the same expiry. *)
Theorem depositFunds_returns repo u amount d fe w r w' :
  depositFunds repo u amount d fe w = (Return r, w') →
  let reply := entry_value <$> redis w !! wallet_id_key u in
  let with_balance :=
    <[wallet_balance_key u :=
        mkEntry (pretty (newBalance r)) (Some 86400000)]> (redis w) in
  redis w !! wallet_lock_key u = None ∧
  repo u (or_undefined reply) amount d (ledger w) = (Return r, ledger w') ∧
  redis w' =
    if replied reply then with_balance
    else <[wallet_id_key u := mkEntry (res_walletId r) (Some 86400000)]>
           with_balance.
Proof.
  unfold depositFunds. rewrite finally_spec.
  unfold acquireWalletLock, releaseWalletLock. unfold_funds. unfold_monad.
  destruct (amount <=? 0); simpl; [done|].
  destruct (acquire_client_fault (base fe)) as [?|]; simpl; [done|].
  destruct (acquire_set_fault (base fe)) as [?|]; simpl; [done|].
  destruct (redis w !! wallet_lock_key u) as [?|] eqn:Hk; simpl; [done|].
  destruct (cache_client_fault (base fe)) as [?|]; simpl.
  { destruct (release_client_fault (base fe)); simpl; [done|].
    destruct (release_eval_fault (base fe)); done. }
  destruct (id_get_fault fe) as [?|]; simpl.
  { destruct (release_client_fault (base fe)); simpl; [done|].
    destruct (release_eval_fault (base fe)); done. }
  rewrite (lookup_insert_ne _ (wallet_lock_key u) (wallet_id_key u))
    by (intros H; symmetry in H; by apply id_key_not_lock_key in H).
  destruct (repo u _ amount d (ledger w)) as [[res|?] rows] eqn:Hrepo; simpl.
  2: { destruct (release_client_fault (base fe)); simpl; [done|].
       destruct (release_eval_fault (base fe)); done. }
  destruct (cache_set_fault (base fe)) as [?|]; simpl.
  { destruct (release_client_fault (base fe)); simpl; [done|].
    destruct (release_eval_fault (base fe)); done. }
  destruct (replied (entry_value <$> redis w !! wallet_id_key u)) eqn:Hrep;
    simpl; [|destruct (id_set_fault fe) as [?|]; simpl];
    (destruct (release_client_fault (base fe)); simpl; [done|]);
    (destruct (release_eval_fault (base fe)); simpl; [done|]);
    intros [= <- <-]; simpl; (split; [done|]); (split; [done|]).
  - apply (release_after_caching _ (mkEntry _ _) _
             (λ m, <[wallet_balance_key u := _]> m)); [done| |].
    + rewrite lookup_insert_ne by apply balance_key_not_lock_key.
      apply lookup_insert_eq.
    + rewrite delete_insert_ne
        by (intros H; symmetry in H; by apply balance_key_not_lock_key in H).
      by rewrite delete_insert_id.
  - apply (release_after_caching _ (mkEntry _ _) _
             (λ m, <[wallet_id_key u := _]>
                     (<[wallet_balance_key u := _]> m))); [done| |].
    + rewrite lookup_insert_ne by apply id_key_not_lock_key.
      rewrite lookup_insert_ne by apply balance_key_not_lock_key.
      apply lookup_insert_eq.
    + rewrite delete_insert_ne
        by (intros H; symmetry in H; by apply id_key_not_lock_key in H).
      rewrite delete_insert_ne
        by (intros H; symmetry in H; by apply balance_key_not_lock_key in H).
      by rewrite delete_insert_id.
Qed.

Lemma depositFunds_witness :
  let fe := mkFundsEnv (quiet "t1" "w1" "x1") None None in
  let run := depositFunds sample_deposit (VStr "u1") 100 "Manual Deposit" fe
               funded_u1 in
  let reply := entry_value <$> redis funded_u1 !! wallet_id_key (VStr "u1") in
  let with_balance :=
    <[wallet_balance_key (VStr "u1") :=
        mkEntry (pretty (newBalance (mkResult 600 "w1" "x1")))
          (Some 86400000)]> (redis funded_u1) in
  redis funded_u1 !! wallet_lock_key (VStr "u1") = None ∧
  sample_deposit (VStr "u1") (or_undefined reply) 100 "Manual Deposit"
    (ledger funded_u1) = (Return (mkResult 600 "w1" "x1"), ledger run.2) ∧
  redis run.2 =
    if replied reply then with_balance
    else <[wallet_id_key (VStr "u1") :=
             mkEntry (res_walletId (mkResult 600 "w1" "x1")) (Some 86400000)]>
           with_balance.
Proof.
  apply (depositFunds_returns sample_deposit (VStr "u1") 100 "Manual Deposit"
           (mkFundsEnv (quiet "t1" "w1" "x1") None None) funded_u1
           (mkResult 600 "w1" "x1")).
  vm_compute. reflexivity.
Defined.

(** X16: when [withdrawFunds] returns, its result is the repository's,
    which has acted on the ledger once; the lock was free before the call,
    and Redis afterwards is the store from before plus the cached balance,
    the returned [newBalance], expiring after 24 hours. *)
Theorem withdrawFunds_returns repo u amount d e w r w' :
  withdrawFunds repo u amount d e w = (Return r, w') →
  redis w !! wallet_lock_key u = None ∧
  repo u amount d (ledger w) = (Return r, ledger w') ∧
  redis w' =
    <[wallet_balance_key u :=
        mkEntry (pretty (newBalance r)) (Some 86400000)]> (redis w).
Proof.
  unfold withdrawFunds. rewrite finally_spec.
  unfold acquireWalletLock, releaseWalletLock. unfold_funds. unfold_monad.
  destruct (amount <=? 0); simpl; [done|].
  destruct (acquire_client_fault e) as [?|]; simpl; [done|].
  destruct (acquire_set_fault e) as [?|]; simpl; [done|].
  destruct (redis w !! wallet_lock_key u) as [?|] eqn:Hk; simpl; [done|].
  destruct (repo u amount d (ledger w)) as [[res|?] rows] eqn:Hrepo; simpl;
    [destruct (cache_client_fault e) as [?|]; simpl;
      [|destruct (cache_set_fault e) as [?|]; simpl]|];
    (destruct (release_client_fault e); simpl; [done|]);
    (destruct (release_eval_fault e); simpl; [done|]);
    try done.
  intros [= <- <-]; simpl. split; [done|]. split; [done|].
  apply (release_after_caching _ (mkEntry _ _) _
           (λ m, <[wallet_balance_key u := _]> m)); [done| |].
  - rewrite lookup_insert_ne by apply balance_key_not_lock_key.
    apply lookup_insert_eq.
  - rewrite delete_insert_ne
      by (intros H; symmetry in H; by apply balance_key_not_lock_key in H).
    by rewrite delete_insert_id.
Qed.

Lemma withdrawFunds_witness :
  let run := withdrawFunds sample_withdraw (VStr "u1") 100
               "Manual Withdrawal" (quiet "t1" "w1" "x1") funded_u1 in
  redis funded_u1 !! wallet_lock_key (VStr "u1") = None ∧
  sample_withdraw (VStr "u1") 100 "Manual Withdrawal" (ledger funded_u1)
    = (Return (mkResult 400 "w1" "x1"), ledger run.2) ∧
  redis run.2 =
    <[wallet_balance_key (VStr "u1") :=
        mkEntry (pretty (newBalance (mkResult 400 "w1" "x1")))
          (Some 86400000)]> (redis funded_u1).
Proof.
  apply (withdrawFunds_returns sample_withdraw (VStr "u1") 100
           "Manual Withdrawal" (quiet "t1" "w1" "x1") funded_u1
           (mkResult 400 "w1" "x1")).
  vm_compute. reflexivity.
Defined.

(** * Redis cleanup *)

(** The loop over the patterns leaves the ledger alone and only removes
    entries from Redis, whether it finishes or is cut short by an error. *)
Lemma clear_patterns_only_removes c ce u patterns :
  ∀ i w o w',
    clear_patterns c ce u i patterns w = (o, w') →
    ledger w' = ledger w ∧ redis w' ⊆ redis w.
Proof.
  induction patterns as [|pattern rest IH]; intros i w o w'; simpl.
  { unfold_monad. by intros [= <- <-]. }
  unfold_monad.
  destruct (keys_fault ce i) as [?|]; simpl; [by intros [= <- <-]|].
  destruct (0 <? length (keys_of c pattern (redis w)))%nat; simpl.
  - destruct (del_fault ce i) as [?|]; simpl; [by intros [= <- <-]|].
    intros Hrest. apply IH in Hrest as [Hl Hr]. simpl in Hl, Hr.
    split; [done|]. etrans; [exact Hr|]. apply del_of_removes.
  - intros Hrest. by apply IH in Hrest.
Qed.

Lemma cleanup_body_only_removes c ce u w o w1 :
  (faulty (cleanup_client_fault ce);;
   clear_patterns c ce u 0 (keyPatterns u)) w = (o, w1) →
  ledger w1 = ledger w ∧ redis w1 ⊆ redis w.
Proof.
  unfold mbind, M_bind, faulty.
  destruct (cleanup_client_fault ce) as [err0|]; unfold throw, mret, M_ret.
  - by intros [= <- <-].
  - apply clear_patterns_only_removes.
Qed.

(** The cleanup returns, and what it leaves behind. *)
Lemma cleanup_returns c ce u w :
  ∃ w',
    clearOutdatedRedisEntries c ce u w = (Return tt, w') ∧
    ledger w' = ledger w ∧
    redis w' ⊆ redis w ∧
    (∀ err wx,
       (faulty (cleanup_client_fault ce);;
        clear_patterns c ce u 0 (keyPatterns u)) w = (Throw err, wx) →
       head (trace w') =
         Some (Log error "REDIS_CLEANUP_FAILED"
                 [("userId", u); ("errorMessage", VStr (message err))])).
Proof.
  unfold clearOutdatedRedisEntries, try_catch.
  set (body := (faulty (cleanup_client_fault ce);;
                clear_patterns c ce u 0 (keyPatterns u))).
  destruct (body w) as [[[]|err] w1] eqn:Hbody;
    destruct (cleanup_body_only_removes _ _ _ _ _ _ Hbody) as [Hl Hr].
  - eexists. split; [reflexivity|]. done.
  - unfold_monad. eexists. split; [reflexivity|]. simpl.
    split; [done|]. split; [done|]. by intros err' wx [= <- <-].
Qed.

(** X17: [clearOutdatedRedisEntries] never throws: whatever fails (the
    client, [keys] or [del] for any pattern), it returns, having logged
    REDIS_CLEANUP_FAILED with the error's message as its last act when
    the loop over the patterns was cut short by an error; it leaves the
    ledger alone, and every entry of Redis afterwards was there before with
    the same value. *)
Theorem cleanup_swallows_errors c ce u w :
  ∃ w',
    clearOutdatedRedisEntries c ce u w = (Return tt, w') ∧
    ledger w' = ledger w ∧
    redis w' ⊆ redis w ∧
    (∀ err wx,
       (faulty (cleanup_client_fault ce);;
        clear_patterns c ce u 0 (keyPatterns u)) w = (Throw err, wx) →
       head (trace w') =
         Some (Log error "REDIS_CLEANUP_FAILED"
                 [("userId", u); ("errorMessage", VStr (message err))])).
Proof. apply cleanup_returns. Qed.

(** X18: [manualRedisCleanup] returns [true] in every case, also when
    Redis is unreachable: the errors of the cleanup never reach its catch
    block, so it cannot return [false]. *)
Theorem manual_cleanup_always_true c ce u w :
  ∃ w', manualRedisCleanup c ce u w = (Return true, w') ∧
        ledger w' = ledger w ∧ redis w' ⊆ redis w.
Proof.
  destruct (cleanup_returns c ce u w) as (w1 & Hrun & Hl & Hr & _).
  unfold manualRedisCleanup, try_catch.
  unfold mbind at 1, M_bind at 1. rewrite Hrun.
  unfold_monad. eexists. split; [reflexivity|]. done.
Qed.

(** Redis down: the cleanup reports success all the same. *)
Example manual_cleanup_redis_gone :
  (manualRedisCleanup literal_commands redis_gone (VStr "u1") cached_u1).1
  = Return true ∧
  redis (manualRedisCleanup literal_commands redis_gone (VStr "u1")
           cached_u1).2 = redis cached_u1.
Proof. vm_compute. done. Qed.

(** X19: while the cleanup marker of the user is stored (and Redis
    answers the lookup), [scheduleRedisCleanup] returns at once: no
    marker is written, no key is looked up or deleted, nothing is logged. *)
Theorem schedule_skips_when_marked c ce u minutes w :
  schedule_client_fault ce = None →
  marker_get_fault ce = None →
  replied (entry_value <$> redis w !! redis_cleanup_key u) = true →
  scheduleRedisCleanup c ce u minutes w = (Return tt, w).
Proof.
  intros Hc Hg Hm. unfold scheduleRedisCleanup, redis_get. unfold_monad.
  rewrite Hc, Hg. simpl. by rewrite Hm.
Qed.

Lemma schedule_skips_witness :
  scheduleRedisCleanup literal_commands calm (VStr "u1") (Some 30) cached_u1
  = (Return tt, cached_u1).
Proof.
  apply (schedule_skips_when_marked literal_commands calm (VStr "u1")
           (Some 30) cached_u1).
  - reflexivity.
  - reflexivity.
  - vm_compute. reflexivity.
Defined.

(** X20: [scheduleRedisCleanup] never throws, whatever fails; it leaves
    the ledger alone, and apart from the user's cleanup marker every entry
    of Redis afterwards was there before with the same value. *)
Theorem schedule_swallows_errors c ce u minutes w :
  ∃ w',
    scheduleRedisCleanup c ce u minutes w = (Return tt, w') ∧
    ledger w' = ledger w ∧
    delete (redis_cleanup_key u) (redis w') ⊆ redis w.
Proof.
  unfold scheduleRedisCleanup, try_catch, redis_get.
  unfold mbind at 1, M_bind at 1, faulty at 1.
  destruct (schedule_client_fault ce) as [?|]; unfold throw, mret, M_ret.
  { unfold_monad. eexists. split; [reflexivity|]. simpl. split; [done|].
    apply delete_subseteq. }
  unfold mbind at 1, M_bind at 1. unfold mbind at 1, M_bind at 1.
  unfold faulty at 1.
  destruct (marker_get_fault ce) as [?|]; unfold throw, mret, M_ret, gets.
  { unfold_monad. eexists. split; [reflexivity|]. simpl. split; [done|].
    apply delete_subseteq. }
  destruct (replied _).
  { eexists. split; [reflexivity|]. split; [done|]. apply delete_subseteq. }
  unfold mbind at 1, M_bind at 1.
  destruct (redis_set (marker_set_fault ce) (redis_cleanup_key u) "scheduled"
              true (EX (default 60 minutes * 60)) w) as [[b|err] w1] eqn:Hset.
  - destruct (cleanup_returns c ce u w1) as (w2 & Hrun & Hl & Hr & _).
    rewrite Hrun. eexists. split; [reflexivity|].
    revert Hset. unfold redis_set. unfold_monad.
    destruct (marker_set_fault ce); simpl; [done|].
    destruct (redis w !! redis_cleanup_key u) eqn:Hk; simpl;
      intros [= <- <-]; simpl in *; (split; [done|]).
    + etrans; [apply delete_subseteq|done].
    + etrans; [apply delete_mono; exact Hr|].
      by rewrite delete_insert_id.
  - revert Hset. unfold redis_set. unfold_monad.
    destruct (marker_set_fault ce); simpl.
    + intros [= <- <-]. eexists. split; [reflexivity|]. simpl.
      split; [done|]. apply delete_subseteq.
    + by destruct (redis w !! redis_cleanup_key u).
Qed.

(** * formatCurrency *)

Lemma digit_is_word c : is_digit c = true → is_word_char c = true.
Proof. unfold is_word_char. by intros ->. Qed.

Lemma digit_run_digits l rest :
  Forall (λ c, is_digit c = true) l →
  digit_run (l ++ rest) = (length l + digit_run rest)%nat.
Proof.
  induction 1 as [|c l Hc Hl IH]; [done|]. simpl. by rewrite Hc, IH.
Qed.

Lemma lookahead_digits l :
  Forall (λ c, is_digit c = true) l →
  lookahead l = (0 <? length l)%nat && (length l mod 3 =? 0)%nat.
Proof.
  intros Hl. unfold lookahead.
  rewrite <- (app_nil_r l) at 1 2. rewrite digit_run_digits by done.
  simpl. by rewrite Nat.add_0_r.
Qed.

(** Inside a run of digits whose length is a multiple of three, a comma
    goes before every group of three. *)
Lemma insert_commas_groups k :
  ∀ b, Forall (λ c, is_digit c = true) b → length b = (3 * k)%nat →
       insert_commas true b = with_commas k b.
Proof.
  induction k as [|k IH]; intros b Hb Hlen.
  { destruct b; [done|simpl in Hlen; lia]. }
  destruct b as [|c1 [|c2 [|c3 b]]]; simpl in Hlen; try lia.
  apply Forall_cons in Hb as [H1 Hb]. apply Forall_cons in Hb as [H2 Hb].
  apply Forall_cons in Hb as [H3 Hb].
  assert (length b = (3 * k)%nat) as Hk by lia.
  cbn [insert_commas with_commas take drop app].
  rewrite !(digit_is_word _ H1), !(digit_is_word _ H2), !(digit_is_word _ H3).
  rewrite (lookahead_digits (c1 :: c2 :: c3 :: b)) by by repeat constructor.
  rewrite (lookahead_digits (c2 :: c3 :: b)) by by repeat constructor.
  rewrite (lookahead_digits (c3 :: b)) by by repeat constructor.
  cbn [length]. rewrite Hk.
  replace (S (S (S (3 * k)))) with (0 + (k + 1) * 3)%nat by lia.
  replace (S (S (3 * k))) with (2 + k * 3)%nat by lia.
  replace (S (3 * k)) with (1 + k * 3)%nat by lia.
  rewrite !Nat.Div0.mod_add. simpl.
  replace (0 <? (k + 1) * 3)%nat with true
    by (symmetry; apply Nat.ltb_lt; lia).
  simpl. by rewrite IH.
Qed.

Lemma lookahead_off l :
  Forall (λ c, is_digit c = true) l → (length l mod 3)%nat ≠ 0%nat →
  lookahead l = false.
Proof.
  intros Hl Hmod. rewrite lookahead_digits by done.
  apply andb_false_iff. right. by apply Nat.eqb_neq.
Qed.

(** The one to three leading digits get no comma. *)
Lemma insert_commas_head a b k :
  Forall (λ c, is_digit c = true) a → (1 ≤ length a ≤ 3)%nat →
  Forall (λ c, is_digit c = true) b → length b = (3 * k)%nat →
  insert_commas false (a ++ b) = (a ++ insert_commas true b)%list.
Proof.
  intros Ha Hlen Hb Hk.
  assert (∀ l, Forall (λ c, is_digit c = true) l →
                 (length l = 1 ∨ length l = 2)%nat →
                 Forall (λ c, is_digit c = true) (l ++ b) ∧
                 (length (l ++ b) mod 3)%nat ≠ 0%nat) as Hoff.
  { intros l Hl Hn. split; [by apply Forall_app|].
    rewrite length_app, Hk.
    replace (length l + 3 * k)%nat with (length l + k * 3)%nat by lia.
    rewrite Nat.Div0.mod_add. by destruct Hn as [-> | ->]. }
  destruct a as [|c1 [|c2 [|c3 [|c4 a]]]]; simpl in Hlen; try lia.
  - apply Forall_cons in Ha as [H1 _].
    cbn [app insert_commas]. by rewrite (digit_is_word _ H1).
  - apply Forall_cons in Ha as [H1 Ha]. apply Forall_cons in Ha as [H2 _].
    cbn [app insert_commas].
    rewrite (digit_is_word _ H1), (digit_is_word _ H2).
    destruct (Hoff [c2] ltac:(by repeat constructor) ltac:(by left))
      as [Hd Hm].
    by rewrite (lookahead_off (c2 :: b) Hd Hm).
  - apply Forall_cons in Ha as [H1 Ha]. apply Forall_cons in Ha as [H2 Ha].
    apply Forall_cons in Ha as [H3 _].
    cbn [app insert_commas].
    rewrite (digit_is_word _ H1), (digit_is_word _ H2), (digit_is_word _ H3).
    destruct (Hoff [c2; c3] ltac:(by repeat constructor) ltac:(by right))
      as [Hd Hm].
    destruct (Hoff [c3] ltac:(by repeat constructor) ltac:(by left))
      as [Hd' Hm'].
    by rewrite (lookahead_off (c2 :: c3 :: b) Hd Hm),
      (lookahead_off (c3 :: b) Hd' Hm').
Qed.

Lemma split_on_none sep l :
  sep ∉ l → split_on sep l = [l].
Proof.
  induction l as [|c l IH]; [done|]. intros Hn.
  apply not_elem_of_cons in Hn as [Hc Hl]. simpl.
  rewrite (proj2 (Ascii.eqb_neq c sep)) by congruence. by rewrite IH.
Qed.

Lemma split_on_first sep l r :
  sep ∉ l → split_on sep (l ++ sep :: r) = l :: split_on sep r.
Proof.
  induction l as [|c l IH]; intros Hn; simpl.
  - by rewrite Ascii.eqb_refl.
  - apply not_elem_of_cons in Hn as [Hc Hl].
    rewrite (proj2 (Ascii.eqb_neq c sep)) by congruence. by rewrite IH.
Qed.

Lemma digits_have_no_point l :
  Forall (λ c, is_digit c = true) l → "."%char ∉ l.
Proof.
  intros Hl Hin. rewrite Forall_forall in Hl. by apply Hl in Hin.
Qed.

(** No comma before or after a minus sign. *)
Lemma insert_commas_minus s :
  insert_commas false ("-"%char :: s) = "-"%char :: insert_commas false s.
Proof.
  cbn [insert_commas]. unfold lookahead. cbn [digit_run].
  replace (is_digit "-") with false by by vm_compute.
  replace (is_word_char "-") with false by by vm_compute.
  done.
Qed.

(** X21: thousands separators.  When [toFixed(2)] prints the number as an
    optional minus sign, one to three digits [a], [k] more groups of three
    digits [b], a point and the decimals, [formatCurrency] returns the
    currency, the sign, [a], then each group of three of [b] after a comma,
    the point and the decimals: the commas stand exactly between the groups
    of three counted from the point. *)
Theorem formatCurrency_groups_by_three {number : Type}
    (toFixed2 : number → string) x currency (negative : bool) a b k dec :
  let sign := if negative then ["-"%char] else [] in
  toFixed2 x
    = String.string_of_list_ascii (sign ++ a ++ b ++ "."%char :: dec) →
  Forall (λ c, is_digit c = true) a → (1 ≤ length a ≤ 3)%nat →
  Forall (λ c, is_digit c = true) b → length b = (3 * k)%nat →
  "."%char ∉ dec →
  formatCurrency toFixed2 (Some x) currency
  = currency +:+ String.string_of_list_ascii (sign ++ a ++ with_commas k b)
      +:+ "." +:+ String.string_of_list_ascii dec.
Proof.
  intros sign Hfix Ha Hlen Hb Hk Hdec. unfold formatCurrency.
  rewrite Hfix, String.list_ascii_of_string_of_list_ascii.
  replace (sign ++ a ++ b ++ "."%char :: dec)%list
    with ((sign ++ a ++ b) ++ "."%char :: dec)%list
    by by rewrite <- !app_assoc.
  rewrite split_on_first, split_on_none by
    first [ done
          | apply not_elem_of_app; split;
            [unfold sign; destruct negative; [|apply not_elem_of_nil];
             by intros ?%list_elem_of_singleton
            |apply not_elem_of_app; split; by apply digits_have_no_point] ].
  cbn [lookup list_lookup default from_option]. unfold id.
  assert (insert_commas false (sign ++ a ++ b)
          = (sign ++ a ++ with_commas k b)%list) as ->; [|done].
  assert (insert_commas false (a ++ b) = (a ++ with_commas k b)%list) as Hab.
  { rewrite (insert_commas_head a b k) by done.
    by rewrite (insert_commas_groups k). }
  unfold sign. destruct negative; [|done].
  cbn [app]. by rewrite insert_commas_minus, Hab.
Qed.

Lemma formatCurrency_groups_witness :
  formatCurrency sample_toFixed2 (Some (Whole (-1234567))) "KSH "
  = "KSH " +:+
    String.string_of_list_ascii
      (["-"%char] ++ ["1"%char]
       ++ with_commas 2 (String.list_ascii_of_string "234567"))
    +:+ "." +:+ String.string_of_list_ascii (String.list_ascii_of_string "00").
Proof.
  apply (formatCurrency_groups_by_three sample_toFixed2 (Whole (-1234567))
           "KSH " true ["1"%char] (String.list_ascii_of_string "234567") 2
           (String.list_ascii_of_string "00")).
  - vm_compute. reflexivity.
  - repeat constructor.
  - simpl. lia.
  - repeat constructor.
  - reflexivity.
  - vm_compute. intros H. repeat (apply elem_of_cons in H as [H|H]; [discriminate|]).
    by apply elem_of_nil in H.
Defined.

(** The same number as the caller sees it. *)
Example formatCurrency_example :
  formatCurrency sample_toFixed2 (Some (Whole (-1234567))) "KSH "
  = "KSH -1,234,567.00" ∧
  formatCurrency sample_toFixed2 (Some (Whole 999)) "" = "999.00" ∧
  formatCurrency sample_toFixed2 (Some (Whole 1000)) "" = "1,000.00" ∧
  formatCurrency sample_toFixed2 None "KSH " = "".
Proof. vm_compute. done. Qed.

Lemma without_commas_insert pw s :
  without_commas (insert_commas pw s) = without_commas s.
Proof.
  revert pw. induction s as [|c s IH]; intros pw; [done|].
  cbn [insert_commas].
  destruct (Bool.eqb pw (is_word_char c) && lookahead (c :: s));
    unfold without_commas in *; simpl; by rewrite IH.
Qed.

(** X22: the replacement with the thousands pattern only ever adds
    commas: for every text without commas (a number, 'NaN', 'Infinity', an
    exponent form), taking the commas out of the result gives the text
    back. *)
Theorem insert_commas_round_trip s :
  ","%char ∉ s →
  without_commas (insert_commas false s) = s.
Proof.
  intros Hs. rewrite without_commas_insert.
  induction s as [|c s IH]; [done|].
  apply not_elem_of_cons in Hs as [Hc Hs]. unfold without_commas in *.
  simpl. rewrite (proj2 (Ascii.eqb_neq c ",")) by congruence. simpl.
  by rewrite IH.
Qed.

Lemma insert_commas_round_trip_witness :
  without_commas
    (insert_commas false (String.list_ascii_of_string "-1234567"))
  = String.list_ascii_of_string "-1234567".
Proof.
  apply (insert_commas_round_trip (String.list_ascii_of_string "-1234567")).
  vm_compute. intros H.
  repeat (apply elem_of_cons in H as [H|H]; [discriminate|]).
  by apply elem_of_nil in H.
Defined.

(** X23: when [toFixed(2)] prints the number without a decimal point (as
    it does for NaN and the infinities), [formatCurrency] returns the
    currency, the text with the thousands pattern applied, and then the
    literal '.undefined'. *)
Theorem formatCurrency_without_point {number : Type}
    (toFixed2 : number → string) x currency :
  "."%char ∉ String.list_ascii_of_string (toFixed2 x) →
  formatCurrency toFixed2 (Some x) currency
  = currency +:+
    String.string_of_list_ascii
      (insert_commas false (String.list_ascii_of_string (toFixed2 x)))
    +:+ ".undefined".
Proof.
  intros Hno. unfold formatCurrency. by rewrite split_on_none.
Qed.

Lemma formatCurrency_without_point_witness :
  formatCurrency sample_toFixed2 (Some NotANumber) "KSH "
  = "KSH " +:+
    String.string_of_list_ascii
      (insert_commas false
         (String.list_ascii_of_string (sample_toFixed2 NotANumber)))
    +:+ ".undefined".
Proof.
  apply (formatCurrency_without_point sample_toFixed2 NotANumber "KSH ").
  vm_compute. intros H.
  repeat (apply elem_of_cons in H as [H|H]; [discriminate|]).
  by apply elem_of_nil in H.
Defined.

(** What the caller sees for NaN. *)
Example formatCurrency_nan :
  formatCurrency sample_toFixed2 (Some NotANumber) "KSH "
  = "KSH NaN.undefined".
Proof. vm_compute. done. Qed.

(** * getTransactionHistory *)

(** X24: when [getTransactionHistory] returns, it returns the rows the
    repository's query gave, and Redis afterwards is the store from before
    plus one entry, expiring after an hour: the rendering of those rows
    under the key made of the user id, the limit and the offset (50 and 0
    when left out). *)
Theorem history_is_cached {T : Type} repo (stringify : list T → string)
    u limit offset e w ts w' :
  getTransactionHistory repo stringify u limit offset e w = (Return ts, w') →
  repo u (default 50 limit) (default 0 offset) (ledger w)
    = (Return ts, ledger w') ∧
  redis w' =
    <[transaction_history_key u (default 50 limit) (default 0 offset) :=
        mkEntry (stringify ts) (Some 3600000)]> (redis w).
Proof.
  unfold getTransactionHistory, EX. unfold_monad.
  destruct (repo u _ _ (ledger w)) as [[rows|?] lg]; simpl; [|done].
  destruct (cache_client_fault e); simpl; [done|].
  destruct (cache_set_fault e); simpl; [done|].
  by intros [= <- <-].
Qed.

Lemma history_is_cached_witness :
  let run := getTransactionHistory sample_history sample_stringify
               (VStr "u1") None None (quiet "t1" "w1" "x1") funded_u1 in
  sample_history (VStr "u1") (default 50 None) (default 0 None)
    (ledger funded_u1) = (Return [500], ledger run.2) ∧
  redis run.2 =
    <[transaction_history_key (VStr "u1") (default 50 None) (default 0 None)
        := mkEntry (sample_stringify [500]) (Some 3600000)]>
      (redis funded_u1).
Proof.
  apply (history_is_cached sample_history sample_stringify (VStr "u1") None
           None (quiet "t1" "w1" "x1") funded_u1 [500]).
  vm_compute. reflexivity.
Defined.

(** X25: the cache is not optional for reading the history: when the
    repository's query has returned its rows and the cache write then
    fails, [getTransactionHistory] logs the failure and throws that error
    instead of returning the rows; Redis is as before. *)
Theorem history_needs_cache {T : Type} repo (stringify : list T → string)
    u limit offset e w ts rows err :
  repo u (default 50 limit) (default 0 offset) (ledger w)
    = (Return ts, rows) →
  cache_fault e = Some err →
  ∃ w',
    getTransactionHistory repo stringify u limit offset e w
      = (Throw err, w') ∧
    redis w' = redis w ∧
    logged "TRANSACTION_HISTORY_RETRIEVAL_FAILED" err w'.
Proof.
  intros Hrepo Hcache. unfold getTransactionHistory, cache_fault, logged, EX in *.
  unfold_monad. rewrite Hrepo. simpl.
  destruct (cache_client_fault e); simpl.
  - simplify_eq. eexists. split; [reflexivity|]. split; [done|].
    eexists. split; [reflexivity|]. set_solver.
  - rewrite Hcache. simpl. eexists. split; [reflexivity|]. split; [done|].
    eexists. split; [reflexivity|]. set_solver.
Qed.

Lemma history_needs_cache_witness :
  ∃ w',
    getTransactionHistory sample_history sample_stringify (VStr "u1")
      (Some 10) None (cache_down "t1" "w1" "x1") funded_u1
      = (Throw (mkError "redis unavailable"), w') ∧
    redis w' = redis funded_u1 ∧
    logged "TRANSACTION_HISTORY_RETRIEVAL_FAILED"
      (mkError "redis unavailable") w'.
Proof.
  apply (history_needs_cache sample_history sample_stringify (VStr "u1")
           (Some 10) None (cache_down "t1" "w1" "x1") funded_u1 [500]
           (ledger funded_u1)).
  - vm_compute. reflexivity.
  - reflexivity.
Defined.
